(** * forestgiant/semver: the parser, renderer and equality of [semver.go]

    A shallow embedding of [src/semver.go].  Go strings are byte sequences:
    they are modelled by [string] (a list of 8-bit [ascii]); [uint64] values
    are modelled by [N], with the wrap-around written out where the code can
    overflow; a [rune] is an [N].

    The functions of the Go standard library the code calls ([unicode/utf8],
    [strings], [strconv], [flag]) are modelled in modules of the same name,
    after the library's documented behaviour. *)

From Stdlib Require Import NArith ZArith Ascii String List Bool Lia PeanoNat.
Import ListNotations.
Open Scope string_scope.

(** ** Results of fallible functions: Go's [(value, error)] pairs *)

Inductive result (E A : Type) : Type :=
| Ok (a : A)
| Fail (e : E).
Arguments Ok {E A} a.
Arguments Fail {E A} e.

(** ** Package [unicode/utf8] *)

Module utf8.

Local Open Scope N_scope.

Definition rune := N.

Definition RuneError : rune := 0xFFFD%N.
Definition RuneSelf : rune := 0x80%N.

Definition maskx : N := 0x3F%N.
Definition mask2 : N := 0x1F%N.
Definition mask3 : N := 0x0F%N.
Definition mask4 : N := 0x07%N.
Definition locb : N := 0x80%N.
Definition hicb : N := 0xBF%N.

(** What the table [first] says about a leading byte: an ASCII byte, an
    invalid byte, or the leading byte of a sequence of [sz] bytes whose
    second byte lies in [lo..hi]. *)
Inductive lead : Type :=
| AS
| XX
| Seq (sz : nat) (lo hi : N).

Definition first (b : N) : lead :=
  if b <? 0x80 then AS
  else if b <? 0xC2 then XX
  else if b <? 0xE0 then Seq 2 locb hicb
  else if b =? 0xE0 then Seq 3 0xA0 hicb
  else if b <? 0xED then Seq 3 locb hicb
  else if b =? 0xED then Seq 3 locb 0x9F
  else if b <? 0xF0 then Seq 3 locb hicb
  else if b =? 0xF0 then Seq 4 0x90 hicb
  else if b <? 0xF4 then Seq 4 locb hicb
  else if b =? 0xF4 then Seq 4 locb 0x8F
  else XX.

Definition outside (lo hi b : N) : bool := (b <? lo) || (hi <? b).

(** [DecodeRuneInString s]: the first rune of [s] and its width in bytes;
    [(RuneError, 1)] on an invalid encoding, [(RuneError, 0)] on [""]. *)
Definition DecodeRuneInString (s : string) : rune * nat :=
  match s with
  | EmptyString => (RuneError, 0%nat)
  | String c0 t0 =>
    let s0 := N_of_ascii c0 in
    match first s0 with
    | AS => (s0, 1%nat)
    | XX => (RuneError, 1%nat)
    | Seq sz lo hi =>
      if (String.length s <? sz)%nat then (RuneError, 1%nat) else
      match t0 with
      | EmptyString => (RuneError, 1%nat)
      | String c1 t1 =>
        let s1 := N_of_ascii c1 in
        if outside lo hi s1 then (RuneError, 1%nat) else
        if (sz <=? 2)%nat then
          (N.lor (N.shiftl (N.land s0 mask2) 6) (N.land s1 maskx), 2%nat)
        else
        match t1 with
        | EmptyString => (RuneError, 1%nat)
        | String c2 t2 =>
          let s2 := N_of_ascii c2 in
          if outside locb hicb s2 then (RuneError, 1%nat) else
          if (sz <=? 3)%nat then
            (N.lor (N.lor (N.shiftl (N.land s0 mask3) 12)
                          (N.shiftl (N.land s1 maskx) 6))
                   (N.land s2 maskx), 3%nat)
          else
          match t2 with
          | EmptyString => (RuneError, 1%nat)
          | String c3 _ =>
            let s3 := N_of_ascii c3 in
            if outside locb hicb s3 then (RuneError, 1%nat) else
            (N.lor (N.lor (N.lor (N.shiftl (N.land s0 mask4) 18)
                                 (N.shiftl (N.land s1 maskx) 12))
                          (N.shiftl (N.land s2 maskx) 6))
                   (N.land s3 maskx), 4%nat)
          end
        end
      end
    end
  end.

End utf8.

(** ** Package [strings] *)

Module strings.

Import utf8.

(** [IndexByte s c]: the index of the first [c] in [s]; [None] stands for
    Go's [-1]. *)
Fixpoint IndexByte (s : string) (c : ascii) : option nat :=
  match s with
  | EmptyString => None
  | String b t =>
    if Ascii.eqb b c then Some 0 else option_map S (IndexByte t c)
  end.

(** The loop [for i, r := range s] of [indexFunc]: [skip] counts the bytes
    of the current rune still to step over, [i] is the byte index. *)
Fixpoint rangeIndex (f : rune -> bool) (skip i : nat) (s : string)
  : option nat :=
  match s with
  | EmptyString => None
  | String _ t =>
    match skip with
    | S k => rangeIndex f k (S i) t
    | 0 =>
      let (r, w) := DecodeRuneInString s in
      if f r then Some i else rangeIndex f (w - 1) (S i) t
    end
  end.

Definition IndexFunc (s : string) (f : rune -> bool) : option nat :=
  rangeIndex f 0 0 s.

(** The runes a [range] loop over [s] yields. *)
Fixpoint rangeRunes (skip : nat) (s : string) : list rune :=
  match s with
  | EmptyString => []
  | String _ t =>
    match skip with
    | S k => rangeRunes k t
    | 0 =>
      let (r, w) := DecodeRuneInString s in
      r :: rangeRunes (w - 1) t
    end
  end.

Definition isSome {A} (o : option A) : bool :=
  match o with Some _ => true | None => false end.

(** [ContainsRune s r] is [IndexRune(s, r) >= 0]: a byte search for
    [r < RuneSelf], otherwise a search for the rune [r] in [s]. *)
Definition ContainsRune (s : string) (r : rune) : bool :=
  if (r <? RuneSelf)%N then isSome (IndexByte s (ascii_of_N r))
  else existsb (N.eqb r) (rangeRunes 0 s).

(** [s[lo:hi]] *)
Definition slice (s : string) (lo hi : nat) : string :=
  substring lo (hi - lo) s.

(** The loop of [genSplit] for a one-byte separator: [k] is [n - 1 - i],
    the number of cuts still allowed. *)
Fixpoint splitLoop (sep : ascii) (k : nat) (s : string) : list string :=
  match k with
  | 0 => [s]
  | S k' =>
    match IndexByte s sep with
    | None => [s]
    | Some m =>
      slice s 0 m :: splitLoop sep k' (slice s (m + 1) (String.length s))
    end
  end.

(** [SplitN s sep n] for a one-byte separator and [n >= 0]: at most [n]
    substrings, the last one being the unsplit remainder. *)
Definition SplitN (s : string) (sep : ascii) (n : nat) : list string :=
  match n with
  | 0 => []
  | _ =>
    let n :=
    if (String.length s + 1 <? n)%nat then String.length s + 1 else n in
    splitLoop sep (n - 1) s
  end.

End strings.

(** ** Package [strconv] *)

Module strconv.

Inductive errKind : Type := ErrSyntax | ErrRange.

(** [*strconv.NumError] *)
Record NumError : Type := mkNumError {
  Func : string;
  Num : string;
  Err : errKind
}.

Definition syntaxError (fn str : string) : NumError :=
  mkNumError fn str ErrSyntax.
Definition rangeError (fn str : string) : NumError :=
  mkNumError fn str ErrRange.

Definition maxUint64 : N := 18446744073709551615%N.

(** Arithmetic of [uint64]: results are taken modulo 2^64. *)
Definition wrap64 (x : N) : N := (x mod 2 ^ 64)%N.

(** [x - y] on [uint64], for [x, y < 2^64]. *)
Definition sub64 (x y : N) : N := wrap64 (x + 2 ^ 64 - y).

Definition fnParseUint : string := "ParseUint".

(** [lower(c)] is [c | ('x' - 'X')]. *)
Definition lower (c : N) : N := N.lor c 0x20%N.

(** The loop [for _, c := range []byte(s)] of [ParseUint], for a base
    given by its argument (never base 0 here, so [_] is no digit). *)
Fixpoint parseLoop (base cutoff maxVal : N) (s0 : string) (n : N)
         (s : string) : N * option NumError :=
  match s with
  | EmptyString => (n, None)
  | String ch t =>
    let c := N_of_ascii ch in
    let digit :=
      if ((48 <=? c) && (c <=? 57))%N then Some (c - 48)%N
      else if ((97 <=? lower c) && (lower c <=? 122))%N
           then Some (lower c - 97 + 10)%N
           else None in
    match digit with
    | None => (0%N, Some (syntaxError fnParseUint s0))
    | Some d =>
      if (base <=? d)%N then (0%N, Some (syntaxError fnParseUint s0))
      else if (cutoff <=? n)%N
      then (maxVal, Some (rangeError fnParseUint s0))
      else
        let n' := wrap64 (n * base) in
        let n1 := wrap64 (n' + d) in
        if ((n1 <? n') || (maxVal <? n1))%N
        then (maxVal, Some (rangeError fnParseUint s0))
        else parseLoop base cutoff maxVal s0 n1 t
    end
  end.

(** [ParseUint s base bitSize] for [2 <= base <= 36] and
    [1 <= bitSize <= 64], the only way [semver.go] calls it. *)
Definition ParseUint (s : string) (base : N) (bitSize : N)
  : N * option NumError :=
  if (String.length s =? 0)%nat then (0%N, Some (syntaxError fnParseUint s))
  else
    let cutoff := (maxUint64 / base + 1)%N in
    let maxVal := sub64 (wrap64 (N.shiftl 1 bitSize)) 1 in
    parseLoop base cutoff maxVal s 0%N s.

Definition digits : string := "0123456789abcdefghijklmnopqrstuvwxyz".

Definition digitAt (d : N) : ascii :=
  match get (N.to_nat d) digits with
  | Some c => c
  | None => "0"%char
  end.

(** [formatBits]: the digits of [u] in [base], least significant first,
    written in front of [a].  [fuel] bounds the number of digits. *)
Fixpoint formatBits (fuel : nat) (base u : N) (a : string) : string :=
  match fuel with
  | 0 => a
  | S fuel' =>
    if (u <? base)%N then String (digitAt u) a
    else formatBits fuel' base (u / base)%N
                    (String (digitAt (u mod base)%N) a)
  end.

(** [AppendUint dst i base]: a [uint64] has at most 64 digits (the size of
    [formatBits]'s buffer). *)
Definition AppendUint (dst : string) (i : N) (base : N) : string :=
  dst ++ formatBits 64 base i "".

End strconv.

(** ** Package [flag] and the process around it

    The command line's flag set is process-wide state.  [World] holds what
    the code of [semver.go] can reach of it: whether [flag.Parse] has run,
    the registered flags (name, usage text, address of the [bool] it sets),
    the [bool] variables themselves and the standard output. *)

Record World : Type := mkWorld {
  parsed : bool;
  formal : list (string * (string * nat));
  heap : list bool;
  stdout : list string
}.

(** How a call can end: it returns a value, the process exits ([os.Exit]),
    or it panics. *)
Inductive ending (A : Type) : Type :=
| Return (a : A)
| Exit (code : N)
| Panic (msg : string).
Arguments Return {A} a.
Arguments Exit {A} code.
Arguments Panic {A} msg.

Definition M (A : Type) : Type := World -> ending A * World.

Definition ret {A} (a : A) : M A := fun w => (Return a, w).

Definition bind {A B} (m : M A) (k : A -> M B) : M B :=
  fun w =>
    match m w with
    | (Return a, w') => k a w'
    | (Exit c, w') => (Exit c, w')
    | (Panic msg, w') => (Panic msg, w')
    end.

Notation "x <- m ;; k" := (bind m (fun x => k))
  (at level 61, m at next level, right associativity).
Notation "m ;;; k" := (bind m (fun _ => k))
  (at level 61, right associativity).

Module flag.

(** [flag.Parsed()] *)
Definition Parsed : M bool := fun w => (Return (parsed w), w).

Definition defined (name : string) (w : World) : bool :=
  existsb (fun f => String.eqb (fst f) name) (formal w).

(** [CommandLine.Var]: registering a name twice panics. *)
Definition Var (p : nat) (name usage : string) : M unit :=
  fun w =>
    if defined name w then (Panic ("flag redefined: " ++ name), w)
    else (Return tt,
          mkWorld (parsed w) (formal w ++ [(name, (usage, p))])
                  (heap w) (stdout w)).

Fixpoint store (p : nat) (b : bool) (h : list bool) : list bool :=
  match h, p with
  | [], _ => []
  | _ :: t, 0 => b :: t
  | x :: t, S p' => x :: store p' b t
  end.

(** [flag.BoolVar(p, name, value, usage)]: [*p = value], then register. *)
Definition BoolVar (p : nat) (name : string) (value : bool)
           (usage : string) : M unit :=
  fun w =>
    Var p name usage
        (mkWorld (parsed w) (formal w) (store p value (heap w)) (stdout w)).

(** [flag.Bool(name, value, usage)]: [p := new(bool)], then [BoolVar]. *)
Definition Bool (name : string) (value : bool) (usage : string) : M nat :=
  fun w =>
    let p := List.length (heap w) in
    bind (BoolVar p name value usage) (fun _ => ret p)
         (mkWorld (parsed w) (formal w) (heap w ++ [false]) (stdout w)).

(** [*p] *)
Definition load (p : nat) : M bool :=
  fun w => (Return (nth p (heap w) false), w).

End flag.

(** [fmt.Println(x)] and [os.Exit(code)] *)
Definition Println (x : string) : M unit :=
  fun w =>
    (Return tt,
     mkWorld (parsed w) (formal w) (heap w)
             (stdout w ++ [x ++ String (ascii_of_nat 10) ""])).

Definition os_Exit {A} (code : N) : M A := fun w => (Exit code, w).

(** ** Package [semver] *)

Definition numerals : string := "0123456789".
Definition alphabet : string :=
  "abcdefghijklmnopqrstuvwxyzABCDEFGHIJKLMNOPQRSTUVWXYZ".
Definition alphaNumeric : string := alphabet ++ numerals.

(** [type Version struct]: three [uint64] fields. *)
Record Version : Type := mkVersion {
  Major : N;
  Minor : N;
  Patch : N
}.

(** The three numbers, as the error messages name them. *)
Inductive number : Type := MajorNumber | MinorNumber | PatchNumber.

(** The errors [semver.go] can return, one constructor per message:
    - [ErrEmpty]: "Version string empty"
    - [ErrElements]: "Major.Minor.Patch elements not found"
    - [ErrInvalid f p]: "Invalid character(s) found in <f> number <p>"
    - [ErrLeadingZeroes f p]: "<f> number must not contain leading zeroes <p>"
    - [ErrNum e]: the error of [strconv.ParseUint], passed on as it is
    - [ErrParsed]: "Flags have been parsed" *)
Inductive error : Type :=
| ErrEmpty
| ErrElements
| ErrInvalid (f : number) (p : string)
| ErrLeadingZeroes (f : number) (p : string)
| ErrNum (e : strconv.NumError)
| ErrParsed.

Definition Version_String (v : Version) : string :=
  let b := "" in
  let b := strconv.AppendUint b (Major v) 10 in
  let b := b ++ "." in
  let b := strconv.AppendUint b (Minor v) 10 in
  let b := b ++ "." in
  let b := strconv.AppendUint b (Patch v) 10 in
  b.

Definition Version_Equal (v v2 : Version) : bool :=
  if negb (Major v =? Major v2)%N then false
  else if negb (Minor v =? Minor v2)%N then false
  else if negb (Patch v =? Patch v2)%N then false
  else true.

Definition containsOnly (s compare : string) : bool :=
  match strings.IndexFunc s (fun r => negb (strings.ContainsRune compare r))
  with
  | None => true
  | Some _ => false
  end.

Definition hasLeadingZeroes (s : string) : bool :=
  (1 <? String.length s)%nat &&
  match get 0 s with
  | Some c => Ascii.eqb c "0"
  | None => false
  end.

(** [parts[i]]; the index is in range wherever the code uses it. *)
Definition at_ (parts : list string) (i : nat) : string := nth i parts "".

Definition NewVersion (s : string) : result error Version :=
  if (String.length s =? 0)%nat then Fail ErrEmpty else
  (* Split into major.minor.patch *)
  let parts := strings.SplitN s "." 3 in
  if negb (List.length parts =? 3)%nat then Fail ErrElements else
  (* Major *)
  if negb (containsOnly (at_ parts 0) numerals)
  then Fail (ErrInvalid MajorNumber (at_ parts 0)) else
  if hasLeadingZeroes (at_ parts 0)
  then Fail (ErrLeadingZeroes MajorNumber (at_ parts 0)) else
  match strconv.ParseUint (at_ parts 0) 10 64 with
  | (_, Some err) => Fail (ErrNum err)
  | (major, None) =>
  (* Minor *)
  if negb (containsOnly (at_ parts 1) numerals)
  then Fail (ErrInvalid MinorNumber (at_ parts 1)) else
  if hasLeadingZeroes (at_ parts 1)
  then Fail (ErrLeadingZeroes MinorNumber (at_ parts 1)) else
  match strconv.ParseUint (at_ parts 1) 10 64 with
  | (_, Some err) => Fail (ErrNum err)
  | (minor, None) =>
  (* Patch *)
  if negb (containsOnly (at_ parts 2) numerals)
  then Fail (ErrInvalid PatchNumber (at_ parts 2)) else
  if hasLeadingZeroes (at_ parts 2)
  then Fail (ErrLeadingZeroes PatchNumber (at_ parts 2)) else
  match strconv.ParseUint (at_ parts 2) 10 64 with
  | (_, Some err) => Fail (ErrNum err)
  | (patch, None) => Ok (mkVersion major minor patch)
  end end end.

(** [Equal(s1, s2)], the comparison of two version strings. *)
Definition Equal (s1 s2 : string) : bool :=
  match NewVersion s1 with
  | Fail _ => false
  | Ok v =>
    match NewVersion s2 with
    | Fail _ => false
    | Ok v2 => Version_Equal v v2
    end
  end.

Definition Version_CreateFlag (v : Version) : M nat :=
  let versionUsage := "Prints current version: v. " ++ Version_String v in
  versionPtr <- flag.Bool "version" false versionUsage ;;
  (* Set up short hand flags *)
  flag.BoolVar versionPtr "v" false (versionUsage ++ " (shorthand)") ;;;
  ret versionPtr.

Section FlagParsing.

(** [flag.Parse()] reads the command line of the process and the flags
    other code registered; it is taken as it comes. *)
Variable flag_Parse : M unit.

Definition CreateFlagAndParse (s : string) : M (option error) :=
  (* Error if flags are already parsed *)
  isParsed <- flag.Parsed ;;
  if isParsed then ret (Some ErrParsed) else
  (* Create Version struct for supplied strings *)
  match NewVersion s with
  | Fail err => ret (Some err)
  | Ok v =>
    (* Create version flag *)
    versionPtr <- Version_CreateFlag v ;;
    (* Parse all flags *)
    flag_Parse ;;;
    set <- flag.load versionPtr ;;
    if set then Println (Version_String v) ;;; os_Exit 0
    else ret None
  end.

End FlagParsing.

(** ** The vocabulary of the properties *)

(** [strings.Count(s, c)] for a single byte. *)
Fixpoint count (c : ascii) (s : string) : nat :=
  match s with
  | EmptyString => 0
  | String b t => (if Ascii.eqb b c then 1 else 0) + count c t
  end.

(** The shape of a split into at most three parts, by the number of
    separators in the string. *)
Inductive split3 (sep : ascii) (s : string) : list string -> Prop :=
| split3_one :
    count sep s = 0 -> split3 sep s [s]
| split3_two p0 p1 :
    s = p0 ++ String sep p1 -> count sep p0 = 0 -> count sep p1 = 0 ->
    split3 sep s [p0; p1]
| split3_three p0 p1 p2 :
    s = p0 ++ String sep (p1 ++ String sep p2) ->
    count sep p0 = 0 -> count sep p1 = 0 ->
    split3 sep s [p0; p1; p2].

(** The byte is one of ['0'..'9']. *)
Definition isDigit (c : ascii) : bool :=
  ((48 <=? N_of_ascii c) && (N_of_ascii c <=? 57))%N.

(** Every byte of [s] is a digit; so it is for [""]. *)
Fixpoint allDigits (s : string) : bool :=
  match s with
  | EmptyString => true
  | String c t => isDigit c && allDigits t
  end.

(** The value of a digit byte. *)
Definition digitVal (c : ascii) : N := (N_of_ascii c - 48)%N.

(** The number written by the digits of [s] after the digits read so far,
    which are worth [n]; no bound on its size. *)
Fixpoint decAcc (n : N) (s : string) : N :=
  match s with
  | EmptyString => n
  | String c t => decAcc (10 * n + digitVal c) t
  end.

(** The number the digits of [s] denote in base 10. *)
Definition decimal (s : string) : N := decAcc 0 s.

Definition pow10 (k : nat) : N := (10 ^ N.of_nat k)%N.

(** [maxUint64/10 + 1], the cutoff of [ParseUint] in base 10. *)
Definition cutoff10 : N := 1844674407370955162%N.

(** A part that passes the two checks on its text and can be read: digits
    only, at least one of them, and no leading zero. *)
Definition canonical (p : string) : Prop :=
  allDigits p = true /\ p <> "" /\ hasLeadingZeroes p = false.

(** The words of the specification for a leading zero: the part is longer
    than one character and its first character is ['0']. *)
Definition leadingZero (p : string) : Prop :=
  1 < String.length p /\ get 0 p = Some "0"%char.

(** The text [AppendUint] writes for a [uint64]. *)
Definition FormatUint (u : N) : string := strconv.formatBits 64 10 u "".

(** The three steps the parser takes on each part, for the number [f]. *)
Definition parseNumber (f : number) (p : string) : result error N :=
  if negb (containsOnly p numerals) then Fail (ErrInvalid f p) else
  if hasLeadingZeroes p then Fail (ErrLeadingZeroes f p) else
  match strconv.ParseUint p 10 64 with
  | (_, Some err) => Fail (ErrNum err)
  | (n, None) => Ok n
  end.

(** A part the parser accepts: canonical text of a value in [uint64]. *)
Definition accepted (p : string) : Prop :=
  canonical p /\ (decimal p <= strconv.maxUint64)%N.

(** Every byte of [s] satisfies [P]. *)
Fixpoint allBytes (P : ascii -> bool) (s : string) : bool :=
  match s with
  | EmptyString => true
  | String c t => P c && allBytes P t
  end.

(** The byte is an ASCII character: its code is below [utf8.RuneSelf]. *)
Definition isASCII (c : ascii) : bool := (N_of_ascii c <? 128)%N.

(** The byte occurs in the string [compare]. *)
Definition inString (compare : string) (c : ascii) : bool :=
  strings.isSome (strings.IndexByte compare c).

(** The byte is a digit or the separator ['.']. *)
Definition isDigitOrDot (c : ascii) : bool := isDigit c || Ascii.eqb c ".".

(** The place of a number among the three parts. *)
Definition position (f : number) : nat :=
  match f with
  | MajorNumber => 0
  | MinorNumber => 1
  | PatchNumber => 2
  end.

(** What reading the part [p] as the number [f] reports when it fails,
    check by check. *)
Inductive numberError (f : number) (p : string) : error -> Prop :=
| ne_invalid :
    allDigits p = false -> numberError f p (ErrInvalid f p)
| ne_leading :
    allDigits p = true -> hasLeadingZeroes p = true ->
    numberError f p (ErrLeadingZeroes f p)
| ne_syntax :
    p = "" ->
    numberError f p (ErrNum (strconv.syntaxError strconv.fnParseUint p))
| ne_range :
    canonical p -> (strconv.maxUint64 < decimal p)%N ->
    numberError f p (ErrNum (strconv.rangeError strconv.fnParseUint p)).

(** The three fields of a version fit in [uint64]. *)
Definition inRange (v : Version) : Prop :=
  (Major v <= strconv.maxUint64)%N /\ (Minor v <= strconv.maxUint64)%N /\
  (Patch v <= strconv.maxUint64)%N.

(** The usage text of the version flag. *)
Definition versionUsage (v : Version) : string :=
  "Prints current version: v. " ++ Version_String v.

(** The process once the two flags of the version [v] are registered: both
    names are bound to one new [bool], which is [false]. *)
Definition registered (v : Version) (w : World) : World :=
  let p := List.length (heap w) in
  mkWorld (parsed w)
          (formal w ++ [("version", (versionUsage v, p));
                        ("v", (versionUsage v ++ " (shorthand)", p))])
          (heap w ++ [false]) (stdout w).

(** The process once a line of text is printed. *)
Definition printed (x : string) (w : World) : World :=
  mkWorld (parsed w) (formal w) (heap w)
          (stdout w ++ [x ++ String (ascii_of_nat 10) ""]).

(** A command line that sets every registered [bool], and one that sets
    none; both mark the flags as parsed. *)
Definition parseSetsAll : M unit :=
  fun w =>
    (Return tt,
     mkWorld true (formal w) (map (fun _ => true) (heap w)) (stdout w)).

Definition parseSetsNone : M unit :=
  fun w => (Return tt, mkWorld true (formal w) (heap w) (stdout w)).

(** * Properties *)

(** ** Strings: searching, slicing and splitting *)

Lemma length_append (a b : string) :
  String.length (a ++ b) = String.length a + String.length b.
Proof. induction a as [|c a IH]; simpl; [reflexivity | now rewrite IH]. Qed.

Lemma append_nil_r (a : string) : a ++ "" = a.
Proof. induction a as [|c a IH]; simpl; [reflexivity | now rewrite IH]. Qed.

Lemma append_assoc (a b c : string) : (a ++ b) ++ c = a ++ (b ++ c).
Proof. induction a as [|x a IH]; simpl; [reflexivity | now rewrite IH]. Qed.

Lemma count_append c (a b : string) : count c (a ++ b) = count c a + count c b.
Proof. induction a as [|x a IH]; simpl; [reflexivity | rewrite IH; lia]. Qed.

Lemma IndexByte_None_count s c :
  strings.IndexByte s c = None <-> count c s = 0.
Proof.
  induction s as [|b t IH]; simpl; [tauto|].
  destruct (Ascii.eqb b c); simpl.
  - split; [discriminate | lia].
  - destruct (strings.IndexByte t c); simpl in *.
    + split; [discriminate|]. intros H. apply IH in H. discriminate.
    + tauto.
Qed.

Lemma substring_all (s : string) : substring 0 (String.length s) s = s.
Proof. induction s as [|c s IH]; simpl; [reflexivity | now rewrite IH]. Qed.

Lemma slice_prefix (p r : string) :
  strings.slice (p ++ r) 0 (String.length p) = p.
Proof.
  unfold strings.slice. rewrite Nat.sub_0_r.
  induction p as [|c p IH]; simpl.
  - now destruct r.
  - now rewrite IH.
Qed.

Lemma slice_suffix (p r : string) c :
  strings.slice (p ++ String c r) (String.length p + 1)
                (String.length (p ++ String c r)) = r.
Proof.
  unfold strings.slice.
  induction p as [|x p IH]; simpl.
  - rewrite Nat.sub_0_r. apply substring_all.
  - exact IH.
Qed.

(** Where [IndexByte] finds the separator, the string is the text before
    it, the separator and the text after it. *)
Lemma IndexByte_Some_cut s c m :
  strings.IndexByte s c = Some m ->
  exists p r, s = p ++ String c r /\ strings.IndexByte p c = None /\
              m = String.length p.
Proof.
  revert m. induction s as [|b t IH]; simpl; intros m H; [discriminate|].
  destruct (Ascii.eqb_spec b c) as [->|Hne].
  - injection H as <-. exists "", t. simpl. auto.
  - destruct (strings.IndexByte t c) as [m'|] eqn:E; [|discriminate].
    injection H as <-.
    destruct (IH m' eq_refl) as (p & r & -> & Hp & ->).
    exists (String b p), r. simpl.
    destruct (Ascii.eqb_spec b c); [contradiction|].
    rewrite Hp. auto.
Qed.

Lemma IndexByte_found p r c :
  strings.IndexByte p c = None ->
  strings.IndexByte (p ++ String c r) c = Some (String.length p).
Proof.
  induction p as [|b p IH]; simpl; intros H.
  - now rewrite Ascii.eqb_refl.
  - destruct (Ascii.eqb b c); [discriminate|].
    destruct (strings.IndexByte p c); [discriminate|].
    now rewrite IH.
Qed.

Lemma splitLoop_none sep k s :
  strings.IndexByte s sep = None -> strings.splitLoop sep k s = [s].
Proof. intros H. destruct k; simpl; [reflexivity | now rewrite H]. Qed.

Lemma splitLoop_cut sep k p r :
  strings.IndexByte p sep = None ->
  strings.splitLoop sep (S k) (p ++ String sep r)
  = p :: strings.splitLoop sep k r.
Proof.
  intros H. simpl. rewrite (IndexByte_found _ r _ H).
  now rewrite slice_prefix, slice_suffix.
Qed.

(** The bound [n > len(s)+1] of [genSplit] only saves memory: with as many
    cuts allowed as [s] has bytes, the loop already finds every separator. *)
Lemma splitLoop_enough sep k k' s :
  String.length s <= k -> String.length s <= k' ->
  strings.splitLoop sep k s = strings.splitLoop sep k' s.
Proof.
  revert k' s. induction k as [|k IH]; intros k' s Hk Hk'.
  - destruct s; [|simpl in Hk; lia]. now destruct k'.
  - destruct k' as [|k'].
    + destruct s; [reflexivity | simpl in Hk'; lia].
    + destruct (strings.IndexByte s sep) as [m|] eqn:E.
      * destruct (IndexByte_Some_cut _ _ _ E) as (p & r & -> & Hp & ->).
        rewrite !splitLoop_cut by assumption. f_equal.
        rewrite length_append in Hk, Hk'. simpl in Hk, Hk'.
        apply IH; lia.
      * now rewrite !splitLoop_none.
Qed.

Lemma SplitN_3 s sep : strings.SplitN s sep 3 = strings.splitLoop sep 2 s.
Proof.
  unfold strings.SplitN.
  destruct (Nat.ltb_spec (String.length s + 1) 3) as [H|H].
  - replace (String.length s + 1 - 1) with (String.length s) by lia.
    apply splitLoop_enough; lia.
  - reflexivity.
Qed.

Lemma SplitN_3_shape s sep : split3 sep s (strings.SplitN s sep 3).
Proof.
  rewrite SplitN_3.
  destruct (strings.IndexByte s sep) as [m|] eqn:E.
  - destruct (IndexByte_Some_cut _ _ _ E) as (p0 & r & -> & Hp0 & ->).
    rewrite splitLoop_cut by assumption.
    destruct (strings.IndexByte r sep) as [m|] eqn:E'.
    + destruct (IndexByte_Some_cut _ _ _ E') as (p1 & p2 & -> & Hp1 & ->).
      rewrite splitLoop_cut by assumption. simpl.
      apply split3_three; [reflexivity | |]; now apply IndexByte_None_count.
    + rewrite splitLoop_none by assumption.
      apply split3_two; [reflexivity | |]; now apply IndexByte_None_count.
  - rewrite splitLoop_none by assumption.
    apply split3_one. now apply IndexByte_None_count.
Qed.

Lemma SplitN_3_parts sep p0 p1 p2 :
  count sep p0 = 0 -> count sep p1 = 0 ->
  strings.SplitN (p0 ++ String sep (p1 ++ String sep p2)) sep 3
  = [p0; p1; p2].
Proof.
  intros H0 H1. rewrite SplitN_3.
  rewrite splitLoop_cut by now apply IndexByte_None_count.
  rewrite splitLoop_cut by now apply IndexByte_None_count.
  reflexivity.
Qed.

(** ** Runes: a string holds only numerals when all its bytes are digits *)

Ltac Zify.zify_post_hook ::= Z.to_euclidean_division_equations.

Lemma lor_lower_l a b l : (l <= a -> l <= N.lor a b)%N.
Proof.
  intros H. apply N.le_trans with a; [assumption|].
  apply N.ldiff_le, N.bits_inj. intros n.
  rewrite N.ldiff_spec, N.lor_spec, N.bits_0.
  now destruct (N.testbit a n), (N.testbit b n).
Qed.

Lemma lor_lower_r a b l : (l <= b -> l <= N.lor a b)%N.
Proof. rewrite N.lor_comm. apply lor_lower_l. Qed.

Lemma land_maskx x : N.land x utf8.maskx = (x mod 64)%N.
Proof. exact (N.land_ones x 6). Qed.

Lemma land_mask2 x : N.land x utf8.mask2 = (x mod 32)%N.
Proof. exact (N.land_ones x 5). Qed.

Lemma land_mask3 x : N.land x utf8.mask3 = (x mod 16)%N.
Proof. exact (N.land_ones x 4). Qed.

Lemma land_mask4 x : N.land x utf8.mask4 = (x mod 8)%N.
Proof. exact (N.land_ones x 3). Qed.

Lemma decode_ascii c t :
  (N_of_ascii c < 128)%N ->
  utf8.DecodeRuneInString (String c t) = (N_of_ascii c, 1).
Proof.
  intros H. unfold utf8.DecodeRuneInString, utf8.first.
  destruct (N.ltb_spec (N_of_ascii c) 128); [reflexivity | lia].
Qed.

Ltac lower_bound :=
  first [ lia
        | apply lor_lower_l; lower_bound
        | apply lor_lower_r; lower_bound ].

(** A byte that is not ASCII never starts an ASCII rune: the rune is
    [RuneError] or has a code of 128 or more. *)
Lemma decode_high c t :
  (128 <= N_of_ascii c)%N ->
  (128 <= fst (utf8.DecodeRuneInString (String c t)))%N.
Proof.
  intros H. unfold utf8.DecodeRuneInString, utf8.first, utf8.outside.
  unfold utf8.locb, utf8.hicb, utf8.RuneError.
  set (s0 := N_of_ascii c) in *.
  repeat match goal with
  | |- context [(?a <? ?b)%N] => destruct (N.ltb_spec a b)
  | |- context [(?a =? ?b)%N] => destruct (N.eqb_spec a b)
  | |- context [(?a <? ?b)%nat] => destruct (a <? b)%nat
  | |- context [match ?s with EmptyString => _ | String _ _ => _ end] =>
      destruct s
  | |- _ => progress cbn [orb Nat.leb fst]
  end;
  try lia;
  rewrite ?land_maskx, ?land_mask2, ?land_mask3, ?land_mask4,
          ?N.shiftl_mul_pow2;
  change (2 ^ 6)%N with 64%N; change (2 ^ 12)%N with 4096%N;
  change (2 ^ 18)%N with 262144%N;
  lower_bound.
Qed.

Lemma ContainsByte_numerals c :
  strings.isSome (strings.IndexByte numerals c) = isDigit c.
Proof. destruct c as [[] [] [] [] [] [] [] []]; reflexivity. Qed.

Lemma ContainsRune_numerals_low c :
  (N_of_ascii c < 128)%N ->
  strings.ContainsRune numerals (N_of_ascii c) = isDigit c.
Proof.
  intros H. unfold strings.ContainsRune, utf8.RuneSelf.
  destruct (N.ltb_spec (N_of_ascii c) 128); [|lia].
  rewrite ascii_N_embedding. apply ContainsByte_numerals.
Qed.

Lemma ContainsRune_numerals_high r :
  (128 <= r)%N -> strings.ContainsRune numerals r = false.
Proof.
  intros H. unfold strings.ContainsRune, utf8.RuneSelf.
  destruct (N.ltb_spec r 128); [lia|].
  replace (strings.rangeRunes 0 numerals)
    with [48; 49; 50; 51; 52; 53; 54; 55; 56; 57]%N by reflexivity.
  cbn [existsb].
  repeat match goal with
  | |- context [(r =? ?k)%N] => destruct (N.eqb_spec r k); [lia|]
  end.
  reflexivity.
Qed.

Lemma isDigit_low c : isDigit c = true -> (N_of_ascii c < 128)%N.
Proof.
  unfold isDigit. intros H. apply andb_prop in H as [_ H].
  apply N.leb_le in H. lia.
Qed.

Lemma rangeIndex_numerals i s :
  match strings.rangeIndex
          (fun r => negb (strings.ContainsRune numerals r)) 0 i s with
  | None => true
  | Some _ => false
  end = allDigits s.
Proof.
  revert i. induction s as [|c t IH]; intros i; [reflexivity|].
  cbn [strings.rangeIndex allDigits].
  destruct (N.lt_ge_cases (N_of_ascii c) 128) as [Hc|Hc].
  - rewrite decode_ascii by assumption.
    rewrite ContainsRune_numerals_low by assumption.
    destruct (isDigit c); cbn [negb andb]; [apply IH | reflexivity].
  - pose proof (decode_high c t Hc) as Hr.
    destruct (utf8.DecodeRuneInString (String c t)) as [r w].
    cbn [fst] in Hr. rewrite ContainsRune_numerals_high by assumption.
    cbn [negb]. destruct (isDigit c) eqn:E; [|reflexivity].
    apply isDigit_low in E. lia.
Qed.

(** [containsOnly(s, numerals)] holds exactly when every byte of [s] is a
    digit: a rune of several bytes, or an invalid byte, is no numeral. *)
Lemma containsOnly_numerals s : containsOnly s numerals = allDigits s.
Proof. apply rangeIndex_numerals. Qed.

Lemma allDigits_append a b :
  allDigits (a ++ b) = allDigits a && allDigits b.
Proof.
  induction a as [|c a IH]; simpl; [reflexivity|].
  now rewrite IH, andb_assoc.
Qed.

Lemma isDigit_not_dot c : isDigit c = true -> Ascii.eqb c "." = false.
Proof. destruct c as [[] [] [] [] [] [] [] []]; now cbn. Qed.

Lemma allDigits_no_dot s : allDigits s = true -> count "." s = 0.
Proof.
  induction s as [|c t IH]; simpl; [reflexivity|].
  intros H. apply andb_prop in H as [Hc Ht].
  now rewrite (isDigit_not_dot c Hc), IH.
Qed.

(** ** Numbers: reading a string of digits *)

Lemma pow10_S k : pow10 (S k) = (10 * pow10 k)%N.
Proof. unfold pow10. now rewrite Nat2N.inj_succ, N.pow_succ_r'. Qed.

Lemma pow10_pos k : (1 <= pow10 k)%N.
Proof.
  induction k as [|k IH]; [cbv; discriminate | rewrite pow10_S; lia].
Qed.

Lemma decAcc_lower n s : (n * pow10 (String.length s) <= decAcc n s)%N.
Proof.
  revert n. induction s as [|c t IH]; intros n; cbn [decAcc String.length].
  - change (pow10 0) with 1%N. lia.
  - rewrite pow10_S. specialize (IH (10 * n + digitVal c)%N).
    pose proof (pow10_pos (String.length t)). nia.
Qed.

Lemma decAcc_ge n s : (n <= decAcc n s)%N.
Proof.
  pose proof (decAcc_lower n s). pose proof (pow10_pos (String.length s)).
  nia.
Qed.

Lemma isDigit_val c : isDigit c = true -> (digitVal c < 10)%N.
Proof.
  unfold isDigit, digitVal. intros H. apply andb_prop in H as [_ H].
  apply N.leb_le in H. lia.
Qed.

Lemma isDigit_code c :
  isDigit c = true -> N_of_ascii c = (48 + digitVal c)%N.
Proof.
  unfold isDigit, digitVal. intros H. apply andb_prop in H as [H _].
  apply N.leb_le in H. lia.
Qed.

(** On digits the loop of [ParseUint] computes the decimal value, or
    reports a range error as soon as the value passes [maxUint64]. *)
Lemma parseLoop_digits s0 s n :
  allDigits s = true -> (n <= strconv.maxUint64)%N ->
  strconv.parseLoop 10 cutoff10 strconv.maxUint64 s0 n s
  = if (decAcc n s <=? strconv.maxUint64)%N
    then (decAcc n s, None)
    else (strconv.maxUint64,
          Some (strconv.rangeError strconv.fnParseUint s0)).
Proof.
  unfold strconv.maxUint64, cutoff10.
  revert n. induction s as [|c t IH]; intros n Hs Hn;
    cbn [strconv.parseLoop decAcc allDigits] in *.
  - destruct (N.leb_spec n 18446744073709551615); [reflexivity | lia].
  - apply andb_prop in Hs as [Hc Ht].
    pose proof (isDigit_val c Hc) as Hd. unfold digitVal in *.
    unfold isDigit in Hc. rewrite Hc.
    set (d := (N_of_ascii c - 48)%N) in *.
    pose proof (decAcc_ge (10 * n + d) t) as Hge.
    destruct (N.leb_spec 10 d) as [|_]; [lia|].
    destruct (N.leb_spec 1844674407370955162 n) as [Hcut|Hcut].
    + destruct (N.leb_spec (decAcc (10 * n + d) t) 18446744073709551615);
        [lia | reflexivity].
    + unfold strconv.wrap64.
      change (2 ^ 64)%N with 18446744073709551616%N.
      rewrite (N.mod_small (n * 10)) by lia.
      destruct (N.le_gt_cases (n * 10 + d) 18446744073709551615) as [Hin|Hov].
      * rewrite (N.mod_small (n * 10 + d)) by lia.
        destruct (N.ltb_spec (n * 10 + d) (n * 10)); [lia|].
        destruct (N.ltb_spec 18446744073709551615 (n * 10 + d)); [lia|].
        cbn [orb]. rewrite IH by (assumption || lia).
        now rewrite (N.mul_comm n 10).
      * destruct (N.ltb_spec ((n * 10 + d) mod 18446744073709551616)
                             (n * 10)) as [_|Hno]; [|lia].
        cbn [orb].
        destruct (N.leb_spec (decAcc (10 * n + d) t) 18446744073709551615);
          [lia | reflexivity].
Qed.

Lemma ParseUint_10_64 s :
  s <> "" ->
  strconv.ParseUint s 10 64
  = strconv.parseLoop 10 cutoff10 strconv.maxUint64 s 0 s.
Proof. intros H. destruct s; [contradiction | reflexivity]. Qed.

(** [ParseUint(s, 10, 64)] on a string of digits. *)
Lemma ParseUint_digits s :
  s <> "" -> allDigits s = true ->
  strconv.ParseUint s 10 64
  = if (decimal s <=? strconv.maxUint64)%N
    then (decimal s, None)
    else (strconv.maxUint64,
          Some (strconv.rangeError strconv.fnParseUint s)).
Proof.
  intros Hne Hs. rewrite ParseUint_10_64 by assumption.
  apply parseLoop_digits; [assumption | discriminate].
Qed.

Lemma ParseUint_empty :
  strconv.ParseUint "" 10 64
  = (0%N, Some (strconv.syntaxError strconv.fnParseUint "")).
Proof. reflexivity. Qed.

(** ** Rendering a number and reading it back *)

Lemma digitAt_small d :
  (d < 10)%N -> strconv.digitAt d = ascii_of_N (48 + d).
Proof.
  intros H. rewrite <- (N2Nat.id d).
  assert (Hlt : N.to_nat d < 10) by lia.
  destruct (N.to_nat d) as [|[|[|[|[|[|[|[|[|[|k]]]]]]]]]];
    try reflexivity; lia.
Qed.

Lemma digitAt_digitVal c : isDigit c = true -> strconv.digitAt (digitVal c) = c.
Proof.
  intros H. rewrite digitAt_small by now apply isDigit_val.
  rewrite <- isDigit_code by assumption. apply ascii_N_embedding.
Qed.

Lemma digitAt_isDigit d : (d < 10)%N -> isDigit (strconv.digitAt d) = true.
Proof.
  intros H. rewrite digitAt_small by assumption. unfold isDigit.
  rewrite N_ascii_embedding by lia.
  apply andb_true_intro. split; apply N.leb_le; lia.
Qed.

Lemma digitVal_digitAt d : (d < 10)%N -> digitVal (strconv.digitAt d) = d.
Proof.
  intros H. rewrite digitAt_small by assumption. unfold digitVal.
  rewrite N_ascii_embedding by lia. lia.
Qed.

Lemma digitAt_zero d : (d < 10)%N -> strconv.digitAt d = "0"%char -> d = 0%N.
Proof.
  intros H E. rewrite <- (digitVal_digitAt d H), E. reflexivity.
Qed.

Lemma formatBits_S f u a :
  strconv.formatBits (S f) 10 u a
  = if (u <? 10)%N then String (strconv.digitAt u) a
    else strconv.formatBits f 10 (u / 10)
                            (String (strconv.digitAt (u mod 10)) a).
Proof. reflexivity. Qed.

(** Reading digits and then writing the value gives the digits back: the
    writer undoes the reader digit by digit, from the last one. *)
Lemma formatBits_decAcc p : forall f n a,
  allDigits p = true -> (1 <= n)%N ->
  strconv.formatBits (f + String.length p) 10 (decAcc n p) a
  = strconv.formatBits f 10 n (p ++ a).
Proof.
  induction p as [|c t IH]; intros f n a Hp Hn;
    cbn [allDigits decAcc String.length append] in *.
  - now rewrite Nat.add_0_r.
  - apply andb_prop in Hp as [Hc Ht].
    pose proof (isDigit_val c Hc) as Hd.
    replace (f + S (String.length t)) with (S f + String.length t) by lia.
    rewrite IH by (assumption || lia).
    rewrite formatBits_S.
    destruct (N.ltb_spec (10 * n + digitVal c) 10); [lia|].
    replace ((10 * n + digitVal c) / 10)%N with n by lia.
    replace ((10 * n + digitVal c) mod 10)%N with (digitVal c) by lia.
    now rewrite digitAt_digitVal.
Qed.

Lemma formatBits_allDigits f : forall u a,
  allDigits a = true -> allDigits (strconv.formatBits f 10 u a) = true.
Proof.
  induction f as [|f IH]; intros u a Ha; [assumption|].
  rewrite formatBits_S. destruct (N.ltb_spec u 10).
  - cbn [allDigits]. now rewrite digitAt_isDigit, Ha.
  - apply IH. cbn [allDigits]. rewrite digitAt_isDigit, Ha by lia.
    reflexivity.
Qed.

Lemma formatBits_value f : forall u a,
  (u < pow10 f)%N ->
  decAcc 0 (strconv.formatBits f 10 u a) = decAcc u a.
Proof.
  induction f as [|f IH]; intros u a Hu.
  - change (pow10 0) with 1%N in Hu. now replace u with 0%N by lia.
  - rewrite pow10_S in Hu. rewrite formatBits_S.
    destruct (N.ltb_spec u 10).
    + cbn [decAcc]. rewrite digitVal_digitAt by assumption.
      now replace (10 * 0 + u)%N with u by lia.
    + rewrite IH by lia. cbn [decAcc].
      rewrite digitVal_digitAt by lia.
      now replace (10 * (u / 10) + u mod 10)%N with u by lia.
Qed.

Lemma formatBits_head f : forall u a,
  (u < pow10 f)%N -> (1 <= u)%N ->
  exists c t, strconv.formatBits f 10 u a = String c t /\ c <> "0"%char.
Proof.
  induction f as [|f IH]; intros u a Hu H1.
  - change (pow10 0) with 1%N in Hu. lia.
  - rewrite pow10_S in Hu. rewrite formatBits_S.
    destruct (N.ltb_spec u 10).
    + exists (strconv.digitAt u), a. split; [reflexivity|].
      intros E. apply digitAt_zero in E; lia.
    + apply IH; lia.
Qed.

(** ** One number of the version string *)

Lemma hasLeadingZeroes_cons c t :
  hasLeadingZeroes (String c t)
  = match t with EmptyString => false | String _ _ => Ascii.eqb c "0" end.
Proof. now destruct t. Qed.

Lemma hasLeadingZeroes_iff p : hasLeadingZeroes p = true <-> leadingZero p.
Proof.
  unfold leadingZero. destruct p as [|c t].
  - cbn. split; [discriminate | lia].
  - rewrite hasLeadingZeroes_cons. cbn [get String.length].
    destruct t as [|c' t']; cbn [String.length].
    + split; [discriminate | lia].
    + destruct (Ascii.eqb_spec c "0") as [->|Hne].
      * split; [split; [lia | reflexivity] | reflexivity].
      * split; [discriminate | intros [_ E]; congruence].
Qed.

Lemma maxUint64_digits : (strconv.maxUint64 < pow10 20)%N.
Proof. reflexivity. Qed.

Lemma pow10_mono j k : j <= k -> (pow10 j <= pow10 k)%N.
Proof. intros H. unfold pow10. apply N.pow_le_mono_r; lia. Qed.

Lemma AppendUint_10 dst u : strconv.AppendUint dst u 10 = dst ++ FormatUint u.
Proof. reflexivity. Qed.

Lemma FormatUint_canonical u :
  (u <= strconv.maxUint64)%N ->
  canonical (FormatUint u) /\ decimal (FormatUint u) = u.
Proof.
  intros Hu. unfold FormatUint, decimal.
  assert (Hlt : (u < pow10 64)%N).
  { pose proof maxUint64_digits. pose proof (pow10_mono 20 64). lia. }
  split; [split; [|split] |].
  - now apply formatBits_allDigits.
  - destruct (N.eq_dec u 0) as [->|Hnz]; [intros E; discriminate E|].
    destruct (formatBits_head 64 u "" Hlt) as (c & t & -> & Hc); [lia|].
    intros E; discriminate E.
  - destruct (N.eq_dec u 0) as [->|Hnz]; [reflexivity|].
    destruct (formatBits_head 64 u "" Hlt) as (c & t & -> & Hc); [lia|].
    rewrite hasLeadingZeroes_cons. destruct t; [reflexivity|].
    now destruct (Ascii.eqb_spec c "0").
  - now rewrite formatBits_value.
Qed.

Lemma FormatUint_decimal p :
  canonical p -> (decimal p <= strconv.maxUint64)%N ->
  FormatUint (decimal p) = p.
Proof.
  intros (Hd & Hne & Hz) Hmax. destruct p as [|c t]; [contradiction|].
  cbn [allDigits] in Hd. apply andb_prop in Hd as [Hc Ht].
  rewrite hasLeadingZeroes_cons in Hz.
  unfold decimal in *. cbn [decAcc] in *.
  replace (10 * 0 + digitVal c)%N with (digitVal c) in * by lia.
  destruct (N.eq_dec (digitVal c) 0) as [E0|Hnz].
  - assert (Ec : c = "0"%char).
    { rewrite <- (digitAt_digitVal c Hc), E0. reflexivity. }
    subst c. destruct t; [reflexivity | discriminate].
  - pose proof (decAcc_lower (digitVal c) t) as Hlow.
    pose proof maxUint64_digits as Hm.
    assert (Hlen : String.length t < 20).
    { destruct (Nat.lt_ge_cases (String.length t) 20) as [|Hge];
        [assumption|].
      apply pow10_mono in Hge. nia. }
    unfold FormatUint.
    replace 64 with (S (63 - String.length t) + String.length t) by lia.
    rewrite formatBits_decAcc by (assumption || lia).
    rewrite formatBits_S. pose proof (isDigit_val c Hc).
    destruct (N.ltb_spec (digitVal c) 10); [|lia].
    now rewrite digitAt_digitVal, append_nil_r.
Qed.

(** [NewVersion] reads the three parts one after the other and stops at
    the first that fails. *)
Lemma NewVersion_parts s :
  NewVersion s
  = if (String.length s =? 0)%nat then Fail ErrEmpty else
    match strings.SplitN s "." 3 with
    | [p0; p1; p2] =>
      match parseNumber MajorNumber p0 with
      | Fail e => Fail e
      | Ok a =>
        match parseNumber MinorNumber p1 with
        | Fail e => Fail e
        | Ok b =>
          match parseNumber PatchNumber p2 with
          | Fail e => Fail e
          | Ok c => Ok (mkVersion a b c)
          end
        end
      end
    | _ => Fail ErrElements
    end.
Proof.
  unfold NewVersion, parseNumber.
  destruct (String.length s =? 0)%nat; [reflexivity|].
  destruct (strings.SplitN s "." 3) as [|p0 [|p1 [|p2 [|p3 l]]]];
    try reflexivity.
  cbn [List.length Nat.eqb negb at_ nth].
  destruct (containsOnly p0 numerals); cbn [negb]; [|reflexivity].
  destruct (hasLeadingZeroes p0); [reflexivity|].
  destruct (strconv.ParseUint p0 10 64) as [a [e|]]; [reflexivity|].
  destruct (containsOnly p1 numerals); cbn [negb]; [|reflexivity].
  destruct (hasLeadingZeroes p1); [reflexivity|].
  destruct (strconv.ParseUint p1 10 64) as [b [e|]]; [reflexivity|].
  destruct (containsOnly p2 numerals); cbn [negb]; [|reflexivity].
  destruct (hasLeadingZeroes p2); [reflexivity|].
  destruct (strconv.ParseUint p2 10 64) as [c [e|]]; reflexivity.
Qed.

Lemma parseNumber_cases f p :
  parseNumber f p
  = if negb (allDigits p) then Fail (ErrInvalid f p)
    else if hasLeadingZeroes p then Fail (ErrLeadingZeroes f p)
    else if (String.length p =? 0)%nat
    then Fail (ErrNum (strconv.syntaxError strconv.fnParseUint p))
    else if (decimal p <=? strconv.maxUint64)%N then Ok (decimal p)
    else Fail (ErrNum (strconv.rangeError strconv.fnParseUint p)).
Proof.
  unfold parseNumber. rewrite containsOnly_numerals.
  destruct (allDigits p) eqn:Hd; cbn [negb]; [|reflexivity].
  destruct (hasLeadingZeroes p); [reflexivity|].
  destruct p as [|c t]; [reflexivity|].
  rewrite ParseUint_digits by (assumption || discriminate).
  cbn [String.length Nat.eqb].
  now destruct (decimal (String c t) <=? strconv.maxUint64)%N.
Qed.

Lemma parseNumber_ok f p :
  canonical p -> (decimal p <= strconv.maxUint64)%N ->
  parseNumber f p = Ok (decimal p).
Proof.
  intros (Hd & Hne & Hz) Hmax. rewrite parseNumber_cases, Hd, Hz.
  destruct p; [contradiction|]. cbn [negb String.length Nat.eqb].
  now destruct (N.leb_spec (decimal (String a p)) strconv.maxUint64);
    [|lia].
Qed.

Lemma parseNumber_inv f p n :
  parseNumber f p = Ok n ->
  canonical p /\ decimal p = n /\ (n <= strconv.maxUint64)%N.
Proof.
  rewrite parseNumber_cases. unfold canonical.
  destruct (allDigits p); cbn [negb]; [|discriminate].
  destruct (hasLeadingZeroes p); [discriminate|].
  destruct p as [|c t]; [discriminate|]. cbn [String.length Nat.eqb].
  destruct (N.leb_spec (decimal (String c t)) strconv.maxUint64);
    [|discriminate].
  intros [= <-]. repeat split; (assumption || discriminate).
Qed.

(** ** The version string as three parts *)

Lemma count_sep c r : count c (String c r) = S (count c r).
Proof. cbn [count]. now rewrite Ascii.eqb_refl. Qed.

Lemma Version_String_parts v :
  Version_String v
  = FormatUint (Major v)
    ++ String "." (FormatUint (Minor v) ++ String "." (FormatUint (Patch v))).
Proof.
  unfold Version_String. rewrite !AppendUint_10.
  cbn [append]. now rewrite !append_assoc.
Qed.

Lemma length_sep_nonzero p c r :
  (String.length (p ++ String c r) =? 0)%nat = false.
Proof. rewrite length_append. cbn [String.length]. apply Nat.eqb_neq. lia. Qed.

Lemma three_parts_nonempty s p0 p1 p2 :
  strings.SplitN s "." 3 = [p0; p1; p2] ->
  (String.length s =? 0)%nat = false.
Proof. destruct s; [discriminate | reflexivity]. Qed.

Lemma three_parts_join s p0 p1 p2 :
  strings.SplitN s "." 3 = [p0; p1; p2] ->
  s = p0 ++ String "." (p1 ++ String "." p2) /\
  count "." p0 = 0 /\ count "." p1 = 0.
Proof.
  intros H. pose proof (SplitN_3_shape s ".") as Hs. rewrite H in Hs.
  inversion Hs; subst; auto.
Qed.

Lemma Version_Equal_fields v1 v2 :
  Version_Equal v1 v2 = true
  <-> Major v1 = Major v2 /\ Minor v1 = Minor v2 /\ Patch v1 = Patch v2.
Proof.
  unfold Version_Equal.
  destruct (N.eqb_spec (Major v1) (Major v2)); cbn [negb];
    [|split; [discriminate | tauto]].
  destruct (N.eqb_spec (Minor v1) (Minor v2)); cbn [negb];
    [|split; [discriminate | tauto]].
  destruct (N.eqb_spec (Patch v1) (Patch v2)); cbn [negb];
    [tauto | split; [discriminate | tauto]].
Qed.

Lemma Version_Equal_eq v1 v2 : Version_Equal v1 v2 = true <-> v1 = v2.
Proof.
  rewrite Version_Equal_fields. destruct v1, v2; cbn. split.
  - intros (-> & -> & ->). reflexivity.
  - intros [= -> -> ->]. auto.
Qed.

(** * The claims *)

(** C1: for all [uint64] values a, b, c, parsing the rendered string of the
    version {a, b, c} succeeds and yields a version with the same three
    fields: parse(render(v)) = v. *)
Theorem parse_render a b c :
  (a <= strconv.maxUint64)%N -> (b <= strconv.maxUint64)%N ->
  (c <= strconv.maxUint64)%N ->
  NewVersion (Version_String (mkVersion a b c)) = Ok (mkVersion a b c).
Proof.
  intros Ha Hb Hc.
  destruct (FormatUint_canonical a Ha) as [Ca Va].
  destruct (FormatUint_canonical b Hb) as [Cb Vb].
  destruct (FormatUint_canonical c Hc) as [Cc Vc].
  rewrite NewVersion_parts, Version_String_parts. cbn [Major Minor Patch].
  rewrite length_sep_nonzero.
  rewrite SplitN_3_parts by (apply allDigits_no_dot; (apply Ca || apply Cb)).
  rewrite !parseNumber_ok by (assumption || lia).
  now rewrite Va, Vb, Vc.
Qed.

Lemma parse_render_witness :
  (0 <= strconv.maxUint64)%N /\
  (18446744073709551615 <= strconv.maxUint64)%N /\
  (907 <= strconv.maxUint64)%N /\
  NewVersion (Version_String (mkVersion 0 18446744073709551615 907))
  = Ok (mkVersion 0 18446744073709551615 907).
Proof.
  unfold strconv.maxUint64.
  split; [lia | split; [lia | split; [lia|]]].
  apply (parse_render 0 18446744073709551615 907);
    unfold strconv.maxUint64; lia.
Defined.

(** C10: for every string [s] the parser accepts, rendering the version it
    yields gives [s] back, character for character:
    render(parse(s)) = s. *)
Theorem render_parse s v : NewVersion s = Ok v -> Version_String v = s.
Proof.
  rewrite NewVersion_parts.
  destruct (String.length s =? 0)%nat; [discriminate|].
  destruct (strings.SplitN s "." 3) as [|p0 [|p1 [|p2 [|p3 l]]]] eqn:Hs;
    try discriminate.
  destruct (three_parts_join _ _ _ _ Hs) as (-> & _ & _).
  destruct (parseNumber MajorNumber p0) as [a|] eqn:H0; [|discriminate].
  destruct (parseNumber MinorNumber p1) as [b|] eqn:H1; [|discriminate].
  destruct (parseNumber PatchNumber p2) as [c|] eqn:H2; [|discriminate].
  intros [= <-].
  apply parseNumber_inv in H0 as (C0 & <- & M0).
  apply parseNumber_inv in H1 as (C1 & <- & M1).
  apply parseNumber_inv in H2 as (C2 & <- & M2).
  rewrite Version_String_parts. cbn [Major Minor Patch].
  now rewrite !FormatUint_decimal.
Qed.

Lemma render_parse_witness :
  NewVersion "10.0.18446744073709551615"
  = Ok (mkVersion 10 0 18446744073709551615) /\
  Version_String (mkVersion 10 0 18446744073709551615)
  = "10.0.18446744073709551615".
Proof.
  assert (H : NewVersion "10.0.18446744073709551615"
              = Ok (mkVersion 10 0 18446744073709551615))
    by (vm_compute; reflexivity).
  split; [exact H | exact (render_parse _ _ H)].
Defined.

(** C6: the equality of two version values is true if and only if their
    major fields are equal, their minor fields are equal and their patch
    fields are equal. *)
Theorem Version_Equal_iff v1 v2 :
  Version_Equal v1 v2 = true
  <-> Major v1 = Major v2 /\ Minor v1 = Minor v2 /\ Patch v1 = Patch v2.
Proof. apply Version_Equal_fields. Qed.

(** C4: the equality of two version strings is false whenever one of the
    strings fails to parse (it has no error result), and is true exactly
    when both strings parse and the two versions are equal. *)
Theorem Equal_strings s1 s2 :
  (forall e, NewVersion s1 = Fail e \/ NewVersion s2 = Fail e ->
             Equal s1 s2 = false) /\
  (Equal s1 s2 = true
   <-> exists v1 v2,
       NewVersion s1 = Ok v1 /\ NewVersion s2 = Ok v2 /\ v1 = v2).
Proof.
  unfold Equal. split.
  - intros e [H|H]; rewrite H; [reflexivity|].
    now destruct (NewVersion s1).
  - destruct (NewVersion s1) as [v1|e1].
    + destruct (NewVersion s2) as [v2|e2].
      * rewrite Version_Equal_eq. split.
        -- intros ->. now exists v2, v2.
        -- now intros (w1 & w2 & [= ->] & [= ->] & ->).
      * split; [discriminate|]. now intros (w1 & w2 & _ & [=] & _).
    + split; [discriminate|]. now intros (w1 & w2 & [=] & _).
Qed.

Lemma Equal_strings_witness :
  Equal "1.2.3" "1.2.3" = true /\
  Equal "1.2.3" "1.2.4" = false /\
  Equal "bad" "1.2.3" = false.
Proof.
  split; [|split].
  - apply (proj2 (Equal_strings "1.2.3" "1.2.3")).
    exists (mkVersion 1 2 3), (mkVersion 1 2 3).
    repeat split; vm_compute; reflexivity.
  - vm_compute; reflexivity.
  - apply (proj1 (Equal_strings "bad" "1.2.3") ErrElements).
    left. vm_compute. reflexivity.
Defined.

(** The number of parts of the split, by the number of dots. *)
Lemma SplitN_3_length s :
  List.length (strings.SplitN s "." 3) < 3 <-> count "." s < 2.
Proof.
  pose proof (SplitN_3_shape s ".") as Hs.
  destruct Hs as [H0|p0 p1 E H0 H1|p0 p1 p2 E H0 H1]; cbn [List.length].
  - lia.
  - rewrite E, count_append, count_sep. lia.
  - rewrite E, count_append, count_sep, count_append, count_sep. lia.
Qed.

(** C7: the empty string fails with the empty-input error, and every
    string that is not empty and splits on ['.'] into fewer than three parts
    (such as "1.2") fails with the wrong-field-count error. *)
Theorem too_few_parts :
  NewVersion "" = Fail ErrEmpty /\
  (forall s, s <> "" ->
             List.length (strings.SplitN s "." 3) < 3 ->
             NewVersion s = Fail ErrElements) /\
  (forall s, s <> "" -> count "." s < 2 -> NewVersion s = Fail ErrElements) /\
  NewVersion "1.2" = Fail ErrElements.
Proof.
  assert (H : forall s, s <> "" ->
                        List.length (strings.SplitN s "." 3) < 3 ->
                        NewVersion s = Fail ErrElements).
  { intros s Hne Hlen. rewrite NewVersion_parts.
    destruct s as [|c t]; [contradiction|]. cbn [String.length Nat.eqb].
    destruct (strings.SplitN (String c t) "." 3) as [|p0 [|p1 [|p2 [|p3 l]]]];
      try reflexivity.
    cbn [List.length] in Hlen. lia. }
  split; [reflexivity | split; [exact H | split]].
  - intros s Hne Hc. apply H; [assumption|]. now apply SplitN_3_length.
  - vm_compute. reflexivity.
Qed.

Lemma too_few_parts_witness :
  "7" <> "" /\ List.length (strings.SplitN "7" "." 3) < 3 /\
  NewVersion "7" = Fail ErrElements.
Proof.
  assert (Hne : "7" <> "") by discriminate.
  assert (Hlen : List.length (strings.SplitN "7" "." 3) < 3)
    by (vm_compute; lia).
  split; [exact Hne | split; [exact Hlen|]].
  exact (proj1 (proj2 too_few_parts) "7" Hne Hlen).
Defined.

Lemma dotted_not_digits p : 0 < count "." p -> allDigits p = false.
Proof.
  intros H. destruct (allDigits p) eqn:E; [|reflexivity].
  apply allDigits_no_dot in E. lia.
Qed.

(** C3: splitting stops after three parts, so with more than two dots the
    further dots stay in the third part; "1.2.3.4" splits into "1", "2",
    "3.4" and fails with the invalid-characters error on the patch number,
    which carries "3.4", not with the wrong-field-count error. *)
Theorem extra_dots_stay_in_patch :
  (forall s, 2 < count "." s ->
     exists p0 p1 p2,
       strings.SplitN s "." 3 = [p0; p1; p2] /\
       s = p0 ++ "." ++ p1 ++ "." ++ p2 /\
       count "." p0 = 0 /\ count "." p1 = 0 /\
       count "." p2 = count "." s - 2 /\
       NewVersion s <> Fail ErrElements /\
       (accepted p0 -> accepted p1 ->
        NewVersion s = Fail (ErrInvalid PatchNumber p2))) /\
  strings.SplitN "1.2.3.4" "." 3 = ["1"; "2"; "3.4"] /\
  NewVersion "1.2.3.4" = Fail (ErrInvalid PatchNumber "3.4").
Proof.
  split; [|split; vm_compute; reflexivity].
  intros s Hc. pose proof (SplitN_3_shape s ".") as Hs.
  remember (strings.SplitN s "." 3) as parts eqn:L.
  destruct Hs as [H0|p0 p1 E H0 H1|p0 p1 p2 E H0 H1].
  - lia.
  - rewrite E, count_append, count_sep in Hc. lia.
  - assert (H2 : count "." p2 = count "." s - 2).
    { rewrite E, count_append, count_sep, count_append, count_sep. lia. }
    exists p0, p1, p2. repeat split; try assumption.
    + rewrite NewVersion_parts, <- L.
      rewrite (three_parts_nonempty s p0 p1 p2) by congruence.
      destruct (parseNumber MajorNumber p0) as [a|e0] eqn:P0.
      * destruct (parseNumber MinorNumber p1) as [b|e1] eqn:P1.
        -- rewrite parseNumber_cases, dotted_not_digits by lia.
           discriminate.
        -- rewrite parseNumber_cases in P1.
           destruct (allDigits p1), (hasLeadingZeroes p1),
             (String.length p1 =? 0)%nat,
             (decimal p1 <=? strconv.maxUint64)%N;
             cbn [negb] in P1; try discriminate P1;
             injection P1 as <-; discriminate.
      * rewrite parseNumber_cases in P0.
        destruct (allDigits p0), (hasLeadingZeroes p0),
          (String.length p0 =? 0)%nat,
          (decimal p0 <=? strconv.maxUint64)%N;
          cbn [negb] in P0; try discriminate P0;
          injection P0 as <-; discriminate.
    + intros [C0 M0] [C1 M1]. rewrite NewVersion_parts, <- L.
      rewrite (three_parts_nonempty s p0 p1 p2) by congruence.
      rewrite !parseNumber_ok by assumption.
      rewrite parseNumber_cases, dotted_not_digits by lia. reflexivity.
Qed.

Lemma extra_dots_stay_in_patch_witness :
  2 < count "." "1.2.3.4" /\
  exists p0 p1 p2,
    strings.SplitN "1.2.3.4" "." 3 = [p0; p1; p2] /\
    "1.2.3.4" = p0 ++ "." ++ p1 ++ "." ++ p2 /\
    count "." p0 = 0 /\ count "." p1 = 0 /\
    count "." p2 = count "." "1.2.3.4" - 2 /\
    NewVersion "1.2.3.4" <> Fail ErrElements /\
    (accepted p0 -> accepted p1 ->
     NewVersion "1.2.3.4" = Fail (ErrInvalid PatchNumber p2)).
Proof.
  assert (Hc : 2 < count "." "1.2.3.4") by (vm_compute; lia).
  split; [exact Hc|].
  exact (proj1 extra_dots_stay_in_patch "1.2.3.4" Hc).
Defined.

Lemma NewVersion_three s p0 p1 p2 :
  strings.SplitN s "." 3 = [p0; p1; p2] ->
  NewVersion s
  = match parseNumber MajorNumber p0 with
    | Fail e => Fail e
    | Ok a =>
      match parseNumber MinorNumber p1 with
      | Fail e => Fail e
      | Ok b =>
        match parseNumber PatchNumber p2 with
        | Fail e => Fail e
        | Ok c => Ok (mkVersion a b c)
        end
      end
    end.
Proof.
  intros H. rewrite NewVersion_parts, H.
  now rewrite (three_parts_nonempty s p0 p1 p2 H).
Qed.

Lemma parseNumber_leading f p :
  allDigits p = true ->
  (parseNumber f p = Fail (ErrLeadingZeroes f p)
   <-> hasLeadingZeroes p = true).
Proof.
  intros Hd. rewrite parseNumber_cases, Hd. cbn [negb].
  destruct (hasLeadingZeroes p); [tauto|].
  destruct (String.length p =? 0)%nat; [split; discriminate|].
  destruct (decimal p <=? strconv.maxUint64)%N; split; discriminate.
Qed.

(** An error about leading zeroes names the number whose part was read. *)
Lemma parseNumber_names f p g q :
  parseNumber f p = Fail (ErrLeadingZeroes g q) -> f = g.
Proof.
  rewrite parseNumber_cases.
  destruct (allDigits p), (hasLeadingZeroes p), (String.length p =? 0)%nat,
    (decimal p <=? strconv.maxUint64)%N; cbn [negb];
    intros E; try discriminate E; now injection E.
Qed.

Lemma accepted_ok f p : accepted p -> parseNumber f p = Ok (decimal p).
Proof. intros [C M]. now apply parseNumber_ok. Qed.

(** C5: for a part made of digits only, the parser fails with the
    leading-zero error for that number if and only if the part is longer
    than one character and starts with ['0'] (the parts before it being
    accepted, since the parser stops at the first failure); "0" alone is
    accepted: "0.0.0" parses to {0,0,0} and "1.02.3" fails with the
    leading-zero error on the minor number. *)
Theorem leading_zero_rule :
  (forall s p0 p1 p2,
     strings.SplitN s "." 3 = [p0; p1; p2] ->
     (allDigits p0 = true ->
      (NewVersion s = Fail (ErrLeadingZeroes MajorNumber p0)
       <-> leadingZero p0)) /\
     (accepted p0 -> allDigits p1 = true ->
      (NewVersion s = Fail (ErrLeadingZeroes MinorNumber p1)
       <-> leadingZero p1)) /\
     (accepted p0 -> accepted p1 -> allDigits p2 = true ->
      (NewVersion s = Fail (ErrLeadingZeroes PatchNumber p2)
       <-> leadingZero p2))) /\
  hasLeadingZeroes "0" = false /\
  NewVersion "0.0.0" = Ok (mkVersion 0 0 0) /\
  NewVersion "1.02.3" = Fail (ErrLeadingZeroes MinorNumber "02").
Proof.
  split; [|repeat split; vm_compute; reflexivity].
  intros s p0 p1 p2 Hs. rewrite (NewVersion_three s p0 p1 p2 Hs).
  split; [|split].
  - intros Hd. rewrite <- hasLeadingZeroes_iff.
    rewrite <- (parseNumber_leading MajorNumber p0 Hd).
    destruct (parseNumber MajorNumber p0) as [a|e0];
      [|split; intros [= ->]; reflexivity].
    split; [|discriminate].
    destruct (parseNumber MinorNumber p1) as [b|e1] eqn:P1.
    + destruct (parseNumber PatchNumber p2) as [c|e2] eqn:P2;
        [discriminate|].
      intros [= ->]. apply parseNumber_names in P2. discriminate.
    + intros [= ->]. apply parseNumber_names in P1. discriminate.
  - intros A0 Hd. rewrite (accepted_ok MajorNumber p0 A0).
    rewrite <- hasLeadingZeroes_iff.
    rewrite <- (parseNumber_leading MinorNumber p1 Hd).
    destruct (parseNumber MinorNumber p1) as [b|e1];
      [|split; intros [= ->]; reflexivity].
    split; [|discriminate].
    destruct (parseNumber PatchNumber p2) as [c|e2] eqn:P2;
      [discriminate|].
    intros [= ->]. apply parseNumber_names in P2. discriminate.
  - intros A0 A1 Hd.
    rewrite (accepted_ok MajorNumber p0 A0), (accepted_ok MinorNumber p1 A1).
    rewrite <- hasLeadingZeroes_iff.
    rewrite <- (parseNumber_leading PatchNumber p2 Hd).
    destruct (parseNumber PatchNumber p2) as [c|e2];
      [|split; intros [= ->]; reflexivity].
    split; discriminate.
Qed.

Lemma leading_zero_rule_witness :
  strings.SplitN "4.007.1" "." 3 = ["4"; "007"; "1"] /\
  accepted "4" /\ allDigits "007" = true /\
  leadingZero "007" /\
  NewVersion "4.007.1" = Fail (ErrLeadingZeroes MinorNumber "007").
Proof.
  assert (Hs : strings.SplitN "4.007.1" "." 3 = ["4"; "007"; "1"])
    by (vm_compute; reflexivity).
  assert (A0 : accepted "4").
  { repeat split; try (vm_compute; reflexivity);
      try (vm_compute; discriminate). }
  assert (Hd : allDigits "007" = true) by (vm_compute; reflexivity).
  assert (Hz : leadingZero "007") by (split; [cbn; lia | reflexivity]).
  split; [exact Hs | split; [exact A0 | split; [exact Hd |]]].
  split; [exact Hz|].
  exact (proj2
    (proj1 (proj2 (proj1 leading_zero_rule "4.007.1" "4" "007" "1" Hs))
           A0 Hd) Hz).
Defined.

(** C8: a part made of digits, without a leading zero, is read as a
    base-10 number of 64 bits: every value up to 2^64-1 is accepted, and
    the parser fails with the range error of the number parser for a part whose
    digits denote a larger value. *)
Theorem number_range :
  (forall p, canonical p ->
     ((decimal p <= strconv.maxUint64)%N ->
      strconv.ParseUint p 10 64 = (decimal p, None)) /\
     ((strconv.maxUint64 < decimal p)%N ->
      snd (strconv.ParseUint p 10 64)
      = Some (strconv.rangeError strconv.fnParseUint p))) /\
  (forall n, (n <= strconv.maxUint64)%N ->
     canonical (FormatUint n) /\
     strconv.ParseUint (FormatUint n) 10 64 = (n, None)) /\
  (forall s p0 p1 p2,
     strings.SplitN s "." 3 = [p0; p1; p2] ->
     (canonical p0 -> (strconv.maxUint64 < decimal p0)%N ->
      NewVersion s
      = Fail (ErrNum (strconv.rangeError strconv.fnParseUint p0))) /\
     (accepted p0 -> canonical p1 -> (strconv.maxUint64 < decimal p1)%N ->
      NewVersion s
      = Fail (ErrNum (strconv.rangeError strconv.fnParseUint p1))) /\
     (accepted p0 -> accepted p1 ->
      canonical p2 -> (strconv.maxUint64 < decimal p2)%N ->
      NewVersion s
      = Fail (ErrNum (strconv.rangeError strconv.fnParseUint p2))) /\
     (accepted p0 -> accepted p1 -> accepted p2 ->
      NewVersion s
      = Ok (mkVersion (decimal p0) (decimal p1) (decimal p2)))).
Proof.
  assert (P : forall p, canonical p ->
     strconv.ParseUint p 10 64
     = if (decimal p <=? strconv.maxUint64)%N
       then (decimal p, None)
       else (strconv.maxUint64,
             Some (strconv.rangeError strconv.fnParseUint p))).
  { intros p (Hd & Hne & _). now apply ParseUint_digits. }
  assert (Q : forall f p, canonical p ->
     parseNumber f p
     = if (strconv.maxUint64 <? decimal p)%N
       then Fail (ErrNum (strconv.rangeError strconv.fnParseUint p))
       else Ok (decimal p)).
  { intros f p (Hd & Hne & Hz). rewrite parseNumber_cases, Hd, Hz.
    destruct p; [contradiction|]. cbn [negb String.length Nat.eqb].
    destruct (N.leb_spec (decimal (String a p)) strconv.maxUint64),
      (N.ltb_spec strconv.maxUint64 (decimal (String a p)));
      (reflexivity || lia). }
  split; [|split].
  - intros p Hp. rewrite (P p Hp). split; intros H.
    + now destruct (N.leb_spec (decimal p) strconv.maxUint64); [|lia].
    + now destruct (N.leb_spec (decimal p) strconv.maxUint64); [lia|].
  - intros n Hn. destruct (FormatUint_canonical n Hn) as [C V].
    split; [assumption|]. rewrite (P _ C), V.
    now destruct (N.leb_spec n strconv.maxUint64); [|lia].
  - intros s p0 p1 p2 Hs. rewrite (NewVersion_three s p0 p1 p2 Hs).
    assert (R : forall f p, canonical p ->
       (strconv.maxUint64 < decimal p)%N ->
       parseNumber f p
       = Fail (ErrNum (strconv.rangeError strconv.fnParseUint p))).
    { intros f p C H. rewrite (Q f p C).
      now destruct (N.ltb_spec strconv.maxUint64 (decimal p)); [|lia]. }
    split; [|split; [|split]].
    + intros C0 H0. now rewrite (R MajorNumber p0 C0 H0).
    + intros A0 C1 H1.
      now rewrite (accepted_ok MajorNumber p0 A0), (R MinorNumber p1 C1 H1).
    + intros A0 A1 C2 H2.
      now rewrite (accepted_ok MajorNumber p0 A0),
        (accepted_ok MinorNumber p1 A1), (R PatchNumber p2 C2 H2).
    + intros A0 A1 A2.
      now rewrite (accepted_ok MajorNumber p0 A0),
        (accepted_ok MinorNumber p1 A1), (accepted_ok PatchNumber p2 A2).
Qed.

Lemma number_range_witness :
  canonical "18446744073709551616" /\
  (strconv.maxUint64 < decimal "18446744073709551616")%N /\
  snd (strconv.ParseUint "18446744073709551616" 10 64)
  = Some (strconv.rangeError strconv.fnParseUint "18446744073709551616").
Proof.
  assert (C : canonical "18446744073709551616").
  { repeat split; try (vm_compute; reflexivity). intros E; discriminate E. }
  assert (H : (strconv.maxUint64 < decimal "18446744073709551616")%N)
    by (vm_compute; reflexivity).
  split; [exact C | split; [exact H|]].
  exact (proj2 (proj1 number_range "18446744073709551616" C) H).
Defined.

Lemma parseNumber_empty f :
  parseNumber f ""
  = Fail (ErrNum (strconv.syntaxError strconv.fnParseUint "")).
Proof. reflexivity. Qed.

(** C2, as the code has it: when a string splits on ['.'] into three parts
    and a part is empty, the parser fails; the empty part passes the check
    of its characters, and where the parts before it are accepted the
    failure is the syntax error of the number parser for the empty text. *)
Theorem empty_part_fails s p0 p1 p2 :
  strings.SplitN s "." 3 = [p0; p1; p2] ->
  (p0 = "" ->
   NewVersion s
   = Fail (ErrNum (strconv.syntaxError strconv.fnParseUint ""))) /\
  (accepted p0 -> p1 = "" ->
   NewVersion s
   = Fail (ErrNum (strconv.syntaxError strconv.fnParseUint ""))) /\
  (accepted p0 -> accepted p1 -> p2 = "" ->
   NewVersion s
   = Fail (ErrNum (strconv.syntaxError strconv.fnParseUint ""))) /\
  (p0 = "" \/ p1 = "" \/ p2 = "" -> exists e, NewVersion s = Fail e).
Proof.
  intros Hs. rewrite (NewVersion_three s p0 p1 p2 Hs).
  split; [|split; [|split]].
  - intros ->. reflexivity.
  - intros A0 ->. now rewrite (accepted_ok MajorNumber p0 A0).
  - intros A0 A1 ->.
    now rewrite (accepted_ok MajorNumber p0 A0),
      (accepted_ok MinorNumber p1 A1).
  - intros H.
    destruct (parseNumber MajorNumber p0) as [a|e0] eqn:P0;
      [|now exists e0].
    destruct (parseNumber MinorNumber p1) as [b|e1] eqn:P1;
      [|now exists e1].
    destruct (parseNumber PatchNumber p2) as [c|e2] eqn:P2;
      [|now exists e2].
    destruct H as [ -> | [ -> | -> ] ];
      [rewrite parseNumber_empty in P0 | rewrite parseNumber_empty in P1
       | rewrite parseNumber_empty in P2]; discriminate.
Qed.

Lemma empty_part_fails_witness :
  strings.SplitN "12..3" "." 3 = ["12"; ""; "3"] /\
  accepted "12" /\
  NewVersion "12..3"
  = Fail (ErrNum (strconv.syntaxError strconv.fnParseUint "")).
Proof.
  assert (Hs : strings.SplitN "12..3" "." 3 = ["12"; ""; "3"])
    by (vm_compute; reflexivity).
  assert (A0 : accepted "12").
  { split; [split; [|split] |]; try (vm_compute; reflexivity);
      try (vm_compute; discriminate). }
  split; [exact Hs | split; [exact A0|]].
  exact (proj1 (proj2 (empty_part_fails "12..3" "12" "" "3" Hs))
               A0 eq_refl).
Defined.

(** C2, as the specification states it, fails: "1..3" and "1.2." are not
    empty and split into three parts, one of them empty, yet the parser does
    not fail with the invalid-characters error for the empty part. *)
Lemma empty_part_counterexample :
  "1..3" <> "" /\
  strings.SplitN "1..3" "." 3 = ["1"; ""; "3"] /\
  NewVersion "1..3"
  = Fail (ErrNum (strconv.syntaxError strconv.fnParseUint "")) /\
  NewVersion "1..3" <> Fail (ErrInvalid MinorNumber "") /\
  "1.2." <> "" /\
  strings.SplitN "1.2." "." 3 = ["1"; "2"; ""] /\
  NewVersion "1.2." <> Fail (ErrInvalid PatchNumber "").
Proof.
  repeat split; try (vm_compute; reflexivity);
    intros E; vm_compute in E; discriminate E.
Qed.

(** C9: when the flags of the command line are already parsed, the helper
    returns the already-parsed error whatever the version string is, valid
    or not, and leaves the process as it was: no flag is registered, the
    command line is not parsed again and nothing is printed. *)
Theorem already_parsed (flag_Parse : M unit) (s : string) (w : World) :
  parsed w = true ->
  CreateFlagAndParse flag_Parse s w = (Return (Some ErrParsed), w).
Proof.
  intros H. unfold CreateFlagAndParse, bind, flag.Parsed.
  now rewrite H.
Qed.

Lemma already_parsed_witness :
  let w := mkWorld true [("n", ("count", 0))] [false] [] in
  let flag_Parse : M unit :=
    fun w => (Return tt, mkWorld true (formal w) (heap w) (stdout w)) in
  parsed w = true /\
  NewVersion "1.x" = Fail ErrElements /\
  CreateFlagAndParse flag_Parse "1.x" w = (Return (Some ErrParsed), w).
Proof.
  intros w flag_Parse.
  split; [reflexivity | split; [vm_compute; reflexivity|]].
  apply (already_parsed flag_Parse "1.x" w). reflexivity.
Defined.

(** * Further properties of the code *)

(** ** Reading one part: success and failure *)

Lemma parseNumber_Ok_iff f p n :
  parseNumber f p = Ok n <-> accepted p /\ decimal p = n.
Proof.
  split.
  - intros H. apply parseNumber_inv in H as (C & E & M).
    subst n. split; [split; assumption | reflexivity].
  - intros [A <-]. now apply accepted_ok.
Qed.

Lemma parseNumber_Fail_iff f p e :
  parseNumber f p = Fail e <-> numberError f p e.
Proof.
  rewrite parseNumber_cases. split.
  - destruct (allDigits p) eqn:Hd; cbn [negb];
      [|intros [= <-]; now constructor].
    destruct (hasLeadingZeroes p) eqn:Hz; [intros [= <-]; now constructor|].
    destruct p as [|c t]; cbn [String.length Nat.eqb];
      [intros [= <-]; now constructor|].
    destruct (N.leb_spec (decimal (String c t)) strconv.maxUint64);
      [discriminate|].
    intros [= <-]. apply ne_range; [|assumption].
    repeat split; (assumption || discriminate).
  - intros H. destruct H as [Hd|Hd Hz|E|(Hd & Hne & Hz) Hm].
    + now rewrite Hd.
    + now rewrite Hd, Hz.
    + subst p. reflexivity.
    + rewrite Hd, Hz. destruct p as [|c t]; [contradiction|].
      cbn [negb String.length Nat.eqb].
      now destruct (N.leb_spec (decimal (String c t)) strconv.maxUint64);
        [lia|].
Qed.

Lemma NewVersion_Ok_three s p0 p1 p2 v :
  strings.SplitN s "." 3 = [p0; p1; p2] ->
  (NewVersion s = Ok v
   <-> accepted p0 /\ accepted p1 /\ accepted p2 /\
       v = mkVersion (decimal p0) (decimal p1) (decimal p2)).
Proof.
  intros Hs. rewrite (NewVersion_three s p0 p1 p2 Hs). split.
  - destruct (parseNumber MajorNumber p0) as [a|] eqn:H0; [|discriminate].
    destruct (parseNumber MinorNumber p1) as [b|] eqn:H1; [|discriminate].
    destruct (parseNumber PatchNumber p2) as [c|] eqn:H2; [|discriminate].
    intros [= <-].
    apply parseNumber_Ok_iff in H0 as [A0 <-].
    apply parseNumber_Ok_iff in H1 as [A1 <-].
    apply parseNumber_Ok_iff in H2 as [A2 <-]. auto.
  - intros (A0 & A1 & A2 & ->).
    now rewrite (accepted_ok _ p0 A0), (accepted_ok _ p1 A1),
      (accepted_ok _ p2 A2).
Qed.

Lemma accepted_not_error f p e : accepted p -> ~ numberError f p e.
Proof.
  intros A H. apply (parseNumber_Fail_iff f) in H.
  rewrite (accepted_ok f p A) in H. discriminate.
Qed.

(** With three parts, the error is that of the first part that is not
    accepted. *)
Lemma NewVersion_Fail_three s p0 p1 p2 e :
  strings.SplitN s "." 3 = [p0; p1; p2] ->
  (NewVersion s = Fail e
   <-> numberError MajorNumber p0 e \/
       (accepted p0 /\ numberError MinorNumber p1 e) \/
       (accepted p0 /\ accepted p1 /\ numberError PatchNumber p2 e)).
Proof.
  intros Hs. rewrite (NewVersion_three s p0 p1 p2 Hs).
  destruct (parseNumber MajorNumber p0) as [a|e0] eqn:H0.
  - apply parseNumber_Ok_iff in H0 as [A0 _].
    destruct (parseNumber MinorNumber p1) as [b|e1] eqn:H1.
    + apply parseNumber_Ok_iff in H1 as [A1 _].
      destruct (parseNumber PatchNumber p2) as [c|e2] eqn:H2.
      * apply parseNumber_Ok_iff in H2 as [A2 _].
        split; [discriminate|].
        intros [H|[[_ H]|(_ & _ & H)]];
          eapply accepted_not_error in H; (contradiction || eassumption).
      * apply parseNumber_Fail_iff in H2. split.
        -- intros [= <-]. auto.
        -- intros [H|[[_ H]|(_ & _ & H)]].
           ++ now apply accepted_not_error in H.
           ++ now apply accepted_not_error in H.
           ++ apply (parseNumber_Fail_iff PatchNumber) in H.
              apply (parseNumber_Fail_iff PatchNumber) in H2.
              congruence.
    + apply parseNumber_Fail_iff in H1. split.
      * intros [= <-]. auto.
      * intros [H|[[_ H]|(_ & A1 & _)]].
        -- now apply accepted_not_error in H.
        -- apply (parseNumber_Fail_iff MinorNumber) in H.
           apply (parseNumber_Fail_iff MinorNumber) in H1. congruence.
        -- now apply accepted_not_error in H1.
  - apply parseNumber_Fail_iff in H0. split.
    + intros [= <-]. auto.
    + intros [H|[[A0 _]|(A0 & _)]].
      * apply (parseNumber_Fail_iff MajorNumber) in H.
        apply (parseNumber_Fail_iff MajorNumber) in H0. congruence.
      * now apply accepted_not_error in H0.
      * now apply accepted_not_error in H0.
Qed.

Lemma allBytes_append P a b :
  allBytes P (a ++ b) = allBytes P a && allBytes P b.
Proof.
  induction a as [|c a IH]; cbn [append allBytes]; [reflexivity|].
  now rewrite IH, andb_assoc.
Qed.

Lemma allDigits_digitOrDot p :
  allDigits p = true -> allBytes isDigitOrDot p = true.
Proof.
  induction p as [|c t IH]; cbn [allDigits allBytes]; [reflexivity|].
  intros H. apply andb_prop in H as [Hc Ht].
  unfold isDigitOrDot at 1. now rewrite Hc, IH.
Qed.

Lemma allDigits_false_iff p :
  allDigits p = false
  <-> exists i c, get i p = Some c /\ isDigit c = false.
Proof.
  induction p as [|c t IH]; cbn [allDigits].
  - split; [discriminate | now intros (i & c & [=] & _)].
  - split.
    + intros H. apply andb_false_iff in H as [H|H].
      * now exists 0, c.
      * apply IH in H as (i & d & Hi & Hd). now exists (S i), d.
    + intros (i & d & Hi & Hd). apply andb_false_iff.
      destruct i as [|i]; cbn [get] in Hi.
      * injection Hi as ->. now left.
      * right. apply IH. now exists i, d.
Qed.

Lemma NewVersion_Fail_cases s e :
  NewVersion s = Fail e ->
  (s = "" /\ e = ErrEmpty) \/
  (s <> "" /\ count "." s < 2 /\ e = ErrElements) \/
  (exists p0 p1 p2, strings.SplitN s "." 3 = [p0; p1; p2]).
Proof.
  intros H. rewrite NewVersion_parts in H.
  destruct s as [|c t]; cbn [String.length Nat.eqb] in H;
    [left; split; congruence|].
  right.
  destruct (strings.SplitN (String c t) "." 3)
    as [|p0 [|p1 [|p2 [|p3 l]]]] eqn:Hs.
  - pose proof (SplitN_3_shape (String c t) ".") as S3.
    rewrite Hs in S3. inversion S3.
  - left. repeat split; [discriminate | | congruence].
    apply SplitN_3_length. rewrite Hs. cbn. lia.
  - left. repeat split; [discriminate | | congruence].
    apply SplitN_3_length. rewrite Hs. cbn. lia.
  - right. now exists p0, p1, p2.
  - pose proof (SplitN_3_shape (String c t) ".") as S3.
    rewrite Hs in S3. inversion S3.
Qed.

Lemma numberError_not_empty f p : ~ numberError f p ErrEmpty.
Proof. intros H. inversion H. Qed.


(** With three parts, an error names a number: the parts before it are
    accepted and its own part is the one that fails. *)
Lemma NewVersion_Fail_located s p0 p1 p2 e :
  strings.SplitN s "." 3 = [p0; p1; p2] ->
  (NewVersion s = Fail e
   <-> exists f,
       Forall accepted (firstn (position f) [p0; p1; p2]) /\
       numberError f (at_ [p0; p1; p2] (position f)) e).
Proof.
  intros Hs. rewrite (NewVersion_Fail_three s p0 p1 p2 e Hs). split.
  - intros [H|[[A0 H]|(A0 & A1 & H)]].
    + exists MajorNumber. split; [apply Forall_nil | exact H].
    + exists MinorNumber. cbn [position firstn].
      split; [now apply Forall_cons | exact H].
    + exists PatchNumber. cbn [position firstn].
      split; [now repeat apply Forall_cons | exact H].
  - intros ([| |] & Hf & H); cbn [position firstn at_ nth] in *.
    + now left.
    + right; left. inversion Hf; subst. now split.
    + right; right. inversion Hf as [|x l A0 Hf']; subst.
      inversion Hf' as [|x l A1 _]; subst.
      split; [assumption | split; assumption].
Qed.

Lemma accepted_no_dot p : accepted p -> count "." p = 0.
Proof. intros [(Hd & _) _]. now apply allDigits_no_dot. Qed.

Lemma NewVersion_Ok_join s v :
  NewVersion s = Ok v ->
  exists p0 p1 p2,
    strings.SplitN s "." 3 = [p0; p1; p2] /\
    s = p0 ++ String "." (p1 ++ String "." p2) /\
    accepted p0 /\ accepted p1 /\ accepted p2 /\
    v = mkVersion (decimal p0) (decimal p1) (decimal p2).
Proof.
  intros H. pose proof H as H'. rewrite NewVersion_parts in H'.
  destruct (String.length s =? 0)%nat; [discriminate|].
  destruct (strings.SplitN s "." 3) as [|p0 [|p1 [|p2 [|p3 l]]]] eqn:Hs;
    try discriminate.
  clear H'. destruct (three_parts_join _ _ _ _ Hs) as (E & _ & _).
  destruct (proj1 (NewVersion_Ok_three s p0 p1 p2 v Hs) H)
    as (A0 & A1 & A2 & Ev).
  exists p0, p1, p2. auto 10.
Qed.

(** ** What the parser accepts *)

(** X1: the parser accepts a string exactly when it is three accepted
    parts (digits only, not empty, no leading zero, value at most 2^64-1)
    joined by two dots, and the version it returns holds their values. *)
Theorem NewVersion_accepts s v :
  NewVersion s = Ok v
  <-> exists p0 p1 p2,
      s = p0 ++ "." ++ p1 ++ "." ++ p2 /\
      accepted p0 /\ accepted p1 /\ accepted p2 /\
      v = mkVersion (decimal p0) (decimal p1) (decimal p2).
Proof.
  split.
  - intros H.
    destruct (NewVersion_Ok_join s v H)
      as (p0 & p1 & p2 & _ & E & A0 & A1 & A2 & Ev).
    exists p0, p1, p2. auto.
  - intros (p0 & p1 & p2 & -> & A0 & A1 & A2 & ->).
    apply (NewVersion_Ok_three _ p0 p1 p2); [|auto].
    apply SplitN_3_parts; now apply accepted_no_dot.
Qed.



(** X3: a string the parser accepts has exactly two dots and no byte
    other than digits and dots: no sign, no space, no [v] in front, no
    pre-release or build suffix. *)
Theorem NewVersion_alphabet s v :
  NewVersion s = Ok v ->
  count "." s = 2 /\ allBytes isDigitOrDot s = true.
Proof.
  intros H. rewrite NewVersion_parts in H.
  destruct (String.length s =? 0)%nat; [discriminate|].
  destruct (strings.SplitN s "." 3) as [|p0 [|p1 [|p2 [|p3 l]]]] eqn:Hs;
    try discriminate.
  destruct (three_parts_join _ _ _ _ Hs) as (-> & _ & _).
  destruct (parseNumber MajorNumber p0) as [a|] eqn:H0; [|discriminate].
  destruct (parseNumber MinorNumber p1) as [b|] eqn:H1; [|discriminate].
  destruct (parseNumber PatchNumber p2) as [c|] eqn:H2; [|discriminate].
  apply parseNumber_inv in H0 as ((D0 & _) & _).
  apply parseNumber_inv in H1 as ((D1 & _) & _).
  apply parseNumber_inv in H2 as ((D2 & _) & _).
  split.
  - rewrite count_append, count_sep, count_append, count_sep.
    rewrite !allDigits_no_dot by assumption. reflexivity.
  - rewrite allBytes_append. cbn [allBytes]. rewrite allBytes_append.
    cbn [allBytes]. rewrite !allDigits_digitOrDot by assumption.
    reflexivity.
Qed.

Lemma NewVersion_alphabet_witness :
  NewVersion "3.14.159" = Ok (mkVersion 3 14 159) /\
  count "." "3.14.159" = 2 /\ allBytes isDigitOrDot "3.14.159" = true.
Proof.
  assert (H : NewVersion "3.14.159" = Ok (mkVersion 3 14 159))
    by (vm_compute; reflexivity).
  split; [exact H | exact (NewVersion_alphabet _ _ H)].
Defined.

(** ** Which error the parser returns *)

(** X4: the parser returns the empty-string error for the empty string
    and for no other string. *)
Theorem empty_error_iff s : NewVersion s = Fail ErrEmpty <-> s = "".
Proof.
  split; [|now intros ->].
  intros H. destruct (NewVersion_Fail_cases s _ H)
    as [[E _]|[(_ & _ & E)|(p0 & p1 & p2 & Hs)]];
    [assumption | discriminate |].
  destruct (proj1 (NewVersion_Fail_located s p0 p1 p2 _ Hs) H)
    as (f & _ & Hf).
  now apply numberError_not_empty in Hf.
Qed.


Lemma NewVersion_Fail_number s e :
  NewVersion s = Fail e -> e <> ErrEmpty -> e <> ErrElements ->
  exists p0 p1 p2 f,
    strings.SplitN s "." 3 = [p0; p1; p2] /\
    Forall accepted (firstn (position f) [p0; p1; p2]) /\
    numberError f (at_ [p0; p1; p2] (position f)) e.
Proof.
  intros H N1 N2.
  destruct (NewVersion_Fail_cases s e H)
    as [[_ E]|[(_ & _ & E)|(p0 & p1 & p2 & Hs)]];
    [contradiction | contradiction |].
  destruct (proj1 (NewVersion_Fail_located s p0 p1 p2 e Hs) H)
    as (f & Hf & Hn).
  now exists p0, p1, p2, f.
Qed.

(** X6: the parser returns the invalid-characters error for the number
    [f] with the text [p] exactly when the string splits into three parts,
    [p] is the part of [f], every part before it is accepted and some
    byte of [p] is not a digit. *)
Theorem invalid_error_iff s f p :
  NewVersion s = Fail (ErrInvalid f p)
  <-> exists p0 p1 p2,
      strings.SplitN s "." 3 = [p0; p1; p2] /\
      at_ [p0; p1; p2] (position f) = p /\
      Forall accepted (firstn (position f) [p0; p1; p2]) /\
      exists i c, get i p = Some c /\ isDigit c = false.
Proof.
  split.
  - intros H.
    destruct (NewVersion_Fail_number s _ H)
      as (p0 & p1 & p2 & g & Hs & Hf & Hn); try discriminate.
    exists p0, p1, p2.
    inversion Hn as [Hd E| | |]; subst g.
    repeat split; try assumption. now apply allDigits_false_iff.
  - intros (p0 & p1 & p2 & Hs & <- & Hf & Hb).
    apply (NewVersion_Fail_located s p0 p1 p2 _ Hs).
    exists f. split; [assumption|].
    apply ne_invalid. now apply allDigits_false_iff.
Qed.

(** X7: the parser returns the leading-zeroes error for the number [f]
    with the text [p] exactly when the string splits into three parts, [p]
    is the part of [f], every part before it is accepted, and [p] is made
    of digits, longer than one byte and starts with ['0']. *)
Theorem leading_zeroes_error_iff s f p :
  NewVersion s = Fail (ErrLeadingZeroes f p)
  <-> exists p0 p1 p2,
      strings.SplitN s "." 3 = [p0; p1; p2] /\
      at_ [p0; p1; p2] (position f) = p /\
      Forall accepted (firstn (position f) [p0; p1; p2]) /\
      allDigits p = true /\ leadingZero p.
Proof.
  split.
  - intros H.
    destruct (NewVersion_Fail_number s _ H)
      as (p0 & p1 & p2 & g & Hs & Hf & Hn); try discriminate.
    exists p0, p1, p2.
    inversion Hn as [|Hd Hz E| |]; subst g.
    repeat split; try assumption; now apply hasLeadingZeroes_iff.
  - intros (p0 & p1 & p2 & Hs & <- & Hf & Hd & Hz).
    apply (NewVersion_Fail_located s p0 p1 p2 _ Hs).
    exists f. split; [assumption|].
    apply ne_leading; [assumption | now apply hasLeadingZeroes_iff].
Qed.

(** X8: the parser passes on an error of the number parser exactly when the
    string splits into three parts, the parts before some number are
    accepted and the part of that number is either empty (a syntax error)
    or a canonical text of a value above 2^64-1 (a range error); the error
    carries the name [ParseUint] and the text of the part.  So a syntax
    error of the number parser is only ever met for an empty part. *)
Theorem number_error_iff s e :
  NewVersion s = Fail (ErrNum e)
  <-> exists p0 p1 p2 f,
      strings.SplitN s "." 3 = [p0; p1; p2] /\
      Forall accepted (firstn (position f) [p0; p1; p2]) /\
      strconv.Func e = "ParseUint" /\
      strconv.Num e = at_ [p0; p1; p2] (position f) /\
      ((strconv.Num e = "" /\ strconv.Err e = strconv.ErrSyntax) \/
       (canonical (strconv.Num e) /\
        (strconv.maxUint64 < decimal (strconv.Num e))%N /\
        strconv.Err e = strconv.ErrRange)).
Proof.
  split.
  - intros H.
    destruct (NewVersion_Fail_number s _ H)
      as (p0 & p1 & p2 & g & Hs & Hf & Hn); try discriminate.
    exists p0, p1, p2, g.
    inversion Hn as [| |E He|C Hm He]; subst e;
      cbn [strconv.Func strconv.Num strconv.Err strconv.syntaxError
           strconv.rangeError].
    + repeat split; try assumption. left. now split.
    + repeat split; try assumption. right. now repeat split; try apply C.
  - intros (p0 & p1 & p2 & f & Hs & Hf & HF & HN & Hk).
    apply (NewVersion_Fail_located s p0 p1 p2 _ Hs).
    exists f. split; [assumption|].
    destruct e as [fn num k].
    cbn [strconv.Func strconv.Num strconv.Err] in HF, HN, Hk. subst fn.
    rewrite <- HN.
    destruct Hk as [[-> ->]|(C & Hm & ->)].
    + now apply ne_syntax.
    + now apply ne_range.
Qed.

(** ** Versions and their texts *)

Lemma accepted_decimal_inj p q :
  accepted p -> accepted q -> decimal p = decimal q -> p = q.
Proof.
  intros [Cp Mp] [Cq Mq] E.
  rewrite <- (FormatUint_decimal p Cp Mp), <- (FormatUint_decimal q Cq Mq).
  now rewrite E.
Qed.

(** Two strings that parse to the same version are the same string. *)
Lemma NewVersion_inj s1 s2 v :
  NewVersion s1 = Ok v -> NewVersion s2 = Ok v -> s1 = s2.
Proof.
  intros H1 H2.
  destruct (NewVersion_Ok_join s1 v H1)
    as (p0 & p1 & p2 & _ & -> & A0 & A1 & A2 & E1).
  destruct (NewVersion_Ok_join s2 v H2)
    as (q0 & q1 & q2 & _ & -> & B0 & B1 & B2 & E2).
  rewrite E1 in E2. injection E2 as E0 E1' E2'.
  now rewrite (accepted_decimal_inj p0 q0), (accepted_decimal_inj p1 q1),
    (accepted_decimal_inj p2 q2).
Qed.

Lemma Version_Equal_sym v1 v2 : Version_Equal v1 v2 = Version_Equal v2 v1.
Proof.
  destruct (Version_Equal v1 v2) eqn:E1, (Version_Equal v2 v1) eqn:E2;
    try reflexivity.
  - apply Version_Equal_eq in E1. subst v2.
    rewrite (proj2 (Version_Equal_eq v1 v1) eq_refl) in E2. discriminate.
  - apply Version_Equal_eq in E2. subst v2.
    rewrite (proj2 (Version_Equal_eq v1 v1) eq_refl) in E1. discriminate.
Qed.

(** X9: the comparison of two version strings does not depend on their
    order. *)
Theorem Equal_sym s1 s2 : Equal s1 s2 = Equal s2 s1.
Proof.
  unfold Equal.
  destruct (NewVersion s1) as [v1|e1], (NewVersion s2) as [v2|e2];
    try reflexivity.
  apply Version_Equal_sym.
Qed.

(** X10: two strings are equal as versions exactly when they are the same
    string and that string parses: the parser accepts one text per version,
    so the comparison never identifies two different texts, and a string
    that does not parse is not even equal to itself. *)
Theorem Equal_same_string s1 s2 :
  Equal s1 s2 = true <-> s1 = s2 /\ exists v, NewVersion s1 = Ok v.
Proof.
  unfold Equal. split.
  - destruct (NewVersion s1) as [v1|e1] eqn:H1; [|discriminate].
    destruct (NewVersion s2) as [v2|e2] eqn:H2; [|discriminate].
    intros E. apply Version_Equal_eq in E. subst v2.
    split; [exact (NewVersion_inj s1 s2 v1 H1 H2) | now exists v1].
  - intros [<- [v H]]. rewrite H. now apply Version_Equal_eq.
Qed.

Lemma FormatUint_no_dot u :
  (u <= strconv.maxUint64)%N -> count "." (FormatUint u) = 0.
Proof.
  intros H. apply allDigits_no_dot.
  apply (FormatUint_canonical u H).
Qed.

Lemma Version_String_split v :
  inRange v ->
  strings.SplitN (Version_String v) "." 3
  = [FormatUint (Major v); FormatUint (Minor v); FormatUint (Patch v)].
Proof.
  intros (Ha & Hb & Hc). rewrite Version_String_parts.
  apply SplitN_3_parts; now apply FormatUint_no_dot.
Qed.

Lemma FormatUint_inj a b :
  (a <= strconv.maxUint64)%N -> (b <= strconv.maxUint64)%N ->
  FormatUint a = FormatUint b -> a = b.
Proof.
  intros Ha Hb E.
  rewrite <- (proj2 (FormatUint_canonical a Ha)).
  rewrite <- (proj2 (FormatUint_canonical b Hb)).
  now rewrite E.
Qed.

(** X11: two versions with fields in [uint64] that render to the same
    string are the same version. *)
Theorem Version_String_inj v1 v2 :
  inRange v1 -> inRange v2 ->
  Version_String v1 = Version_String v2 -> v1 = v2.
Proof.
  intros R1 R2 E.
  pose proof (Version_String_split v1 R1) as S1.
  pose proof (Version_String_split v2 R2) as S2.
  rewrite E, S2 in S1. injection S1 as Ea Eb Ec.
  destruct R1 as (A1 & B1 & C1), R2 as (A2 & B2 & C2).
  destruct v1 as [a1 b1 c1], v2 as [a2 b2 c2]. cbn [Major Minor Patch] in *.
  f_equal; symmetry; now apply FormatUint_inj.
Qed.

Lemma Version_String_inj_witness :
  inRange (mkVersion 7 0 12) /\
  Version_String (mkVersion 7 0 12) = Version_String (mkVersion 7 0 12) /\
  mkVersion 7 0 12 = mkVersion 7 0 12.
Proof.
  assert (R : inRange (mkVersion 7 0 12))
    by (unfold inRange, strconv.maxUint64; cbn; lia).
  split; [exact R | split; [reflexivity|]].
  exact (Version_String_inj _ _ R R eq_refl).
Defined.

Lemma accepted_length p : accepted p -> 1 <= String.length p <= 20.
Proof.
  intros [(Hd & Hne & Hz) Hm]. destruct p as [|c t]; [contradiction|].
  cbn [String.length]. split; [lia|].
  cbn [allDigits] in Hd. apply andb_prop in Hd as [Hc Ht].
  rewrite hasLeadingZeroes_cons in Hz.
  destruct (N.eq_dec (digitVal c) 0) as [E0|Hnz].
  - assert (Ec : c = "0"%char).
    { rewrite <- (digitAt_digitVal c Hc), E0. reflexivity. }
    subst c. destruct t; [cbn; lia | discriminate].
  - unfold decimal in Hm. cbn [decAcc] in Hm.
    replace (10 * 0 + digitVal c)%N with (digitVal c) in Hm by lia.
    pose proof (decAcc_lower (digitVal c) t) as Hlow.
    pose proof maxUint64_digits as Hmax.
    destruct (Nat.lt_ge_cases (String.length t) 20) as [|Hge]; [lia|].
    apply pow10_mono in Hge. nia.
Qed.

(** X12: the rendering of a version with fields in [uint64] has exactly
    two dots, no byte other than digits and dots, and between 5 and 62
    bytes; it splits on the dots into the renderings of the three fields. *)
Theorem Version_String_shape v :
  inRange v ->
  count "." (Version_String v) = 2 /\
  allBytes isDigitOrDot (Version_String v) = true /\
  5 <= String.length (Version_String v) <= 62 /\
  strings.SplitN (Version_String v) "." 3
  = [strconv.AppendUint "" (Major v) 10;
     strconv.AppendUint "" (Minor v) 10;
     strconv.AppendUint "" (Patch v) 10].
Proof.
  intros R. pose proof (Version_String_split v R) as Hs.
  destruct R as (Ha & Hb & Hc).
  destruct (FormatUint_canonical _ Ha) as [Ca Va].
  destruct (FormatUint_canonical _ Hb) as [Cb Vb].
  destruct (FormatUint_canonical _ Hc) as [Cc Vc].
  assert (La := accepted_length (FormatUint (Major v))).
  assert (Lb := accepted_length (FormatUint (Minor v))).
  assert (Lc := accepted_length (FormatUint (Patch v))).
  unfold accepted in La, Lb, Lc. rewrite Va in La. rewrite Vb in Lb.
  rewrite Vc in Lc.
  specialize (La (conj Ca Ha)). specialize (Lb (conj Cb Hb)).
  specialize (Lc (conj Cc Hc)).
  split; [|split; [|split]].
  - rewrite Version_String_parts.
    rewrite count_append, count_sep, count_append, count_sep.
    rewrite !FormatUint_no_dot by assumption. reflexivity.
  - rewrite Version_String_parts.
    rewrite allBytes_append. cbn [allBytes]. rewrite allBytes_append.
    cbn [allBytes].
    rewrite (allDigits_digitOrDot _ (proj1 Ca)).
    rewrite (allDigits_digitOrDot _ (proj1 Cb)).
    rewrite (allDigits_digitOrDot _ (proj1 Cc)). reflexivity.
  - rewrite Version_String_parts.
    rewrite length_append. cbn [String.length]. rewrite length_append.
    cbn [String.length]. lia.
  - exact Hs.
Qed.

Lemma Version_String_shape_witness :
  inRange (mkVersion 18446744073709551615 0 7) /\
  count "." (Version_String (mkVersion 18446744073709551615 0 7)) = 2 /\
  5 <= String.length (Version_String (mkVersion 18446744073709551615 0 7))
    <= 62.
Proof.
  assert (R : inRange (mkVersion 18446744073709551615 0 7))
    by (unfold inRange, strconv.maxUint64; cbn; lia).
  pose proof (Version_String_shape _ R) as (H1 & _ & H3 & _).
  split; [exact R | split; [exact H1 | exact H3]].
Defined.


Lemma NewVersion_String v :
  inRange v -> NewVersion (Version_String v) = Ok v.
Proof.
  intros R. pose proof (Version_String_split v R) as Hs.
  destruct R as (Ha & Hb & Hc).
  destruct (FormatUint_canonical _ Ha) as [Ca Va].
  destruct (FormatUint_canonical _ Hb) as [Cb Vb].
  destruct (FormatUint_canonical _ Hc) as [Cc Vc].
  apply (NewVersion_Ok_three _ _ _ _ v Hs).
  unfold accepted. rewrite Va, Vb, Vc. destruct v. cbn. auto 10.
Qed.

(** X21: on the renderings of two versions with fields in [uint64], the
    comparison of strings gives what the comparison of the two versions
    gives. *)
Theorem Equal_String v1 v2 :
  inRange v1 -> inRange v2 ->
  Equal (Version_String v1) (Version_String v2) = Version_Equal v1 v2.
Proof.
  intros R1 R2. unfold Equal.
  now rewrite (NewVersion_String v1 R1), (NewVersion_String v2 R2).
Qed.

Lemma Equal_String_witness :
  inRange (mkVersion 2 0 1) /\ inRange (mkVersion 2 1 0) /\
  Equal (Version_String (mkVersion 2 0 1)) (Version_String (mkVersion 2 1 0))
  = Version_Equal (mkVersion 2 0 1) (mkVersion 2 1 0).
Proof.
  assert (R1 : inRange (mkVersion 2 0 1))
    by (unfold inRange, strconv.maxUint64; cbn; lia).
  assert (R2 : inRange (mkVersion 2 1 0))
    by (unfold inRange, strconv.maxUint64; cbn; lia).
  split; [exact R1 | split; [exact R2|]].
  exact (Equal_String _ _ R1 R2).
Defined.

(** ** The check of the characters *)

Lemma allDigits_true_iff s :
  allDigits s = true <-> forall i c, get i s = Some c -> isDigit c = true.
Proof.
  induction s as [|b t IH]; cbn [allDigits].
  - split; [intros _ i c; discriminate | reflexivity].
  - split.
    + intros H. apply andb_prop in H as [Hb Ht]. intros [|i] c; cbn [get].
      * now intros [= <-].
      * now apply IH.
    + intros H. apply andb_true_intro. split.
      * now apply (H 0 b).
      * apply IH. intros i c Hi. now apply (H (S i) c).
Qed.

(** X14: [containsOnly(s, numerals)] is true exactly when every byte of
    [s] is one of the ten digits; a rune of several bytes or an invalid
    byte makes it false, and the empty string makes it true. *)
Theorem containsOnly_numerals_bytes s :
  containsOnly s numerals = true
  <-> forall i c, get i s = Some c -> isDigit c = true.
Proof.
  rewrite containsOnly_numerals. apply allDigits_true_iff.
Qed.

Lemma ContainsRune_low compare c :
  isASCII c = true ->
  strings.ContainsRune compare (N_of_ascii c) = inString compare c.
Proof.
  unfold isASCII, strings.ContainsRune, utf8.RuneSelf, inString.
  intros H. change 0x80%N with 128%N. rewrite H.
  now rewrite ascii_N_embedding.
Qed.

Lemma rangeRunes_ascii compare :
  allBytes isASCII compare = true ->
  Forall (fun r => (r < 128)%N) (strings.rangeRunes 0 compare).
Proof.
  induction compare as [|c t IH]; cbn [allBytes strings.rangeRunes];
    [constructor|].
  intros H. apply andb_prop in H as [Hc Ht].
  unfold isASCII in Hc. apply N.ltb_lt in Hc.
  rewrite decode_ascii by assumption. cbn [Nat.sub].
  constructor; [assumption | now apply IH].
Qed.

Lemma ContainsRune_high compare r :
  allBytes isASCII compare = true -> (128 <= r)%N ->
  strings.ContainsRune compare r = false.
Proof.
  intros Hc Hr. unfold strings.ContainsRune, utf8.RuneSelf.
  change 0x80%N with 128%N.
  destruct (N.ltb_spec r 128); [lia|].
  pose proof (rangeRunes_ascii compare Hc) as Hall.
  induction Hall as [|x l Hx _ IH]; cbn [existsb]; [reflexivity|].
  rewrite IH. destruct (N.eqb_spec r x); [lia | reflexivity].
Qed.

Lemma inString_high compare c :
  allBytes isASCII compare = true -> isASCII c = false ->
  inString compare c = false.
Proof.
  unfold inString. intros Hc Hh.
  induction compare as [|b t IH]; cbn [strings.IndexByte allBytes] in *;
    [reflexivity|].
  apply andb_prop in Hc as [Hb Ht].
  destruct (Ascii.eqb_spec b c) as [->|_]; [congruence|].
  specialize (IH Ht). now destruct (strings.IndexByte t c).
Qed.

Lemma rangeIndex_ascii compare i s :
  allBytes isASCII compare = true ->
  match strings.rangeIndex
          (fun r => negb (strings.ContainsRune compare r)) 0 i s with
  | None => true
  | Some _ => false
  end = allBytes (inString compare) s.
Proof.
  intros Hc. revert i. induction s as [|c t IH]; intros i; [reflexivity|].
  cbn [strings.rangeIndex allBytes].
  destruct (isASCII c) eqn:Ha.
  - pose proof Ha as Hlt. unfold isASCII in Hlt. apply N.ltb_lt in Hlt.
    rewrite decode_ascii by assumption.
    rewrite ContainsRune_low by assumption.
    destruct (inString compare c); cbn [negb andb];
      [apply IH | reflexivity].
  - pose proof Ha as Hge. unfold isASCII in Hge. apply N.ltb_ge in Hge.
    pose proof (decode_high c t Hge) as Hr.
    destruct (utf8.DecodeRuneInString (String c t)) as [r w].
    cbn [fst] in Hr. rewrite ContainsRune_high by assumption.
    cbn [negb]. now rewrite inString_high.
Qed.

(** X15: for a set [compare] of ASCII characters, such as the numerals,
    the alphabet or both, [containsOnly(s, compare)] is true exactly when
    every byte of [s] occurs in [compare]. *)
Theorem containsOnly_ascii_set compare s :
  allBytes isASCII compare = true ->
  containsOnly s compare = allBytes (inString compare) s.
Proof.
  intros Hc. unfold containsOnly, strings.IndexFunc.
  now apply rangeIndex_ascii.
Qed.

Lemma containsOnly_ascii_set_witness :
  allBytes isASCII alphaNumeric = true /\
  containsOnly "rc1" alphaNumeric = allBytes (inString alphaNumeric) "rc1" /\
  containsOnly "1-rc" alphaNumeric
  = allBytes (inString alphaNumeric) "1-rc".
Proof.
  assert (H : allBytes isASCII alphaNumeric = true)
    by (vm_compute; reflexivity).
  split; [exact H | split].
  - exact (containsOnly_ascii_set alphaNumeric "rc1" H).
  - exact (containsOnly_ascii_set alphaNumeric "1-rc" H).
Defined.

(** ** The version flag *)

Lemma bind_eq {A B} (m : M A) (k : A -> M B) w :
  bind m k w
  = match m w with
    | (Return a, w') => k a w'
    | (Exit c, w') => (Exit c, w')
    | (Panic msg, w') => (Panic msg, w')
    end.
Proof. reflexivity. Qed.

Lemma store_new h b x :
  flag.store (List.length h) b (h ++ [x])%list = (h ++ [b])%list.
Proof. induction h as [|y h IH]; cbn; [reflexivity | now rewrite IH]. Qed.

Lemma defined_formal name w :
  flag.defined name w
  = existsb (fun f => String.eqb (fst f) name) (formal w).
Proof. reflexivity. Qed.

Lemma BoolVar_free p name value usage w :
  flag.defined name w = false ->
  flag.BoolVar p name value usage w
  = (Return tt,
     mkWorld (parsed w) (formal w ++ [(name, (usage, p))])
             (flag.store p value (heap w)) (stdout w)).
Proof.
  intros H. unfold flag.BoolVar, flag.Var.
  rewrite defined_formal in *. cbn [formal parsed heap stdout].
  now rewrite H.
Qed.

Lemma BoolVar_taken p name value usage w :
  flag.defined name w = true ->
  exists msg w',
    flag.BoolVar p name value usage w = (Panic msg, w') /\
    parsed w' = parsed w /\ formal w' = formal w /\ stdout w' = stdout w.
Proof.
  intros H. unfold flag.BoolVar, flag.Var.
  rewrite defined_formal in *. cbn [formal parsed heap stdout].
  rewrite H. eexists _, _. split; [reflexivity|]. now cbn.
Qed.

Lemma Bool_free name value usage w :
  flag.defined name w = false ->
  flag.Bool name value usage w
  = (Return (List.length (heap w)),
     mkWorld (parsed w)
             (formal w ++ [(name, (usage, List.length (heap w)))])
             (heap w ++ [value]) (stdout w)).
Proof.
  intros H. unfold flag.Bool. rewrite bind_eq.
  rewrite BoolVar_free by (rewrite defined_formal in *; exact H).
  cbn [parsed formal heap stdout ret]. now rewrite store_new.
Qed.

Lemma Bool_taken name value usage w :
  flag.defined name w = true ->
  exists msg w',
    flag.Bool name value usage w = (Panic msg, w') /\
    parsed w' = parsed w /\ formal w' = formal w /\ stdout w' = stdout w.
Proof.
  intros H. unfold flag.Bool. rewrite bind_eq.
  destruct (BoolVar_taken (List.length (heap w)) name value usage
              (mkWorld (parsed w) (formal w) (heap w ++ [false]) (stdout w)))
    as (msg & w' & E & Hp & Hf & Ho);
    [rewrite defined_formal in *; exact H|].
  rewrite E. now exists msg, w'.
Qed.

(** The registration of the two flags, where both names are free. *)
Lemma CreateFlag_free v w :
  flag.defined "version" w = false -> flag.defined "v" w = false ->
  Version_CreateFlag v w = (Return (List.length (heap w)), registered v w).
Proof.
  intros Hv Hs. unfold Version_CreateFlag. fold (versionUsage v).
  rewrite bind_eq, (Bool_free _ _ _ w Hv).
  rewrite bind_eq, BoolVar_free.
  - unfold ret, registered. cbn [parsed formal heap stdout].
    now rewrite store_new, <- app_assoc.
  - rewrite defined_formal in *. cbn [formal].
    rewrite existsb_app, Hs. reflexivity.
Qed.

(** The registration panics where one of the two names is taken. *)
Lemma CreateFlag_taken v w :
  flag.defined "version" w = true \/ flag.defined "v" w = true ->
  exists msg w',
    Version_CreateFlag v w = (Panic msg, w') /\
    parsed w' = parsed w /\ stdout w' = stdout w.
Proof.
  intros Hd. unfold Version_CreateFlag. fold (versionUsage v).
  rewrite bind_eq.
  destruct (flag.defined "version" w) eqn:E1.
  - destruct (Bool_taken "version" false (versionUsage v) w E1)
      as (msg & w' & E & Hp & _ & Ho).
    rewrite E. now exists msg, w'.
  - destruct Hd as [Hd|Hd]; [discriminate|].
    rewrite (Bool_free _ _ _ w E1), bind_eq.
    match goal with
    | |- context [flag.BoolVar ?p ?n ?b ?u ?w1] =>
        destruct (BoolVar_taken p n b u w1) as (msg & w' & E & Hp & _ & Ho)
    end.
    + rewrite defined_formal in *. cbn [formal].
      rewrite existsb_app, Hd. reflexivity.
    + rewrite E. exists msg, w'. now cbn [parsed stdout] in *.
Qed.

(** X16: where no flag is yet named [version] or [v], creating the flag
    registers both names, in this order, on one new [bool] that is
    [false], with the usage text "Prints current version: v. " followed by
    the rendering of the version (and " (shorthand)" for [v]); it returns
    the address of that [bool] and touches nothing else. *)
Theorem CreateFlag_registers v w :
  flag.defined "version" w = false -> flag.defined "v" w = false ->
  exists p w',
    Version_CreateFlag v w = (Return p, w') /\
    p = List.length (heap w) /\
    nth p (heap w') true = false /\
    heap w' = (heap w ++ [false])%list /\
    formal w'
    = (formal w
       ++ [("version",
            (("Prints current version: v. " ++ Version_String v)%string,
             p));
           ("v",
            (("Prints current version: v. " ++ Version_String v
               ++ " (shorthand)")%string, p))])%list /\
    parsed w' = parsed w /\ stdout w' = stdout w.
Proof.
  intros Hv Hs. exists (List.length (heap w)), (registered v w).
  split; [now apply CreateFlag_free|].
  unfold registered, versionUsage. cbn [parsed formal heap stdout].
  repeat split.
  rewrite app_nth2 by lia. now rewrite Nat.sub_diag.
Qed.

Lemma CreateFlag_registers_witness :
  let w := mkWorld false [("n", ("count", 0))] [true] [] in
  flag.defined "version" w = false /\ flag.defined "v" w = false /\
  exists p w',
    Version_CreateFlag (mkVersion 1 2 3) w = (Return p, w') /\
    p = 1 /\ heap w' = [true; false].
Proof.
  intros w.
  assert (Hv : flag.defined "version" w = false) by reflexivity.
  assert (Hs : flag.defined "v" w = false) by reflexivity.
  split; [exact Hv | split; [exact Hs|]].
  destruct (CreateFlag_registers (mkVersion 1 2 3) w Hv Hs)
    as (p & w' & E & Hp & _ & Hh & _).
  exists p, w'. split; [exact E | split; [exact Hp | exact Hh]].
Defined.

Section FlagProperties.

Variable flag_Parse : M unit.

(** X17: while the flags are not parsed, a version string the parser
    rejects makes the helper return the parser's error and leave the process
    as it was: no flag is registered and the command line is not parsed. *)
Theorem CreateFlagAndParse_invalid s e w :
  parsed w = false -> NewVersion s = Fail e ->
  CreateFlagAndParse flag_Parse s w = (Return (Some e), w).
Proof.
  intros Hp He. unfold CreateFlagAndParse, bind, flag.Parsed.
  now rewrite Hp, He.
Qed.

Lemma CreateFlagAndParse_valid s v w :
  parsed w = false -> NewVersion s = Ok v ->
  flag.defined "version" w = false -> flag.defined "v" w = false ->
  CreateFlagAndParse flag_Parse s w
  = match flag_Parse (registered v w) with
    | (Return _, w2) =>
      if nth (List.length (heap w)) (heap w2) false
      then (Exit 0, printed (Version_String v) w2)
      else (Return None, w2)
    | (Exit c, w2) => (Exit c, w2)
    | (Panic msg, w2) => (Panic msg, w2)
    end.
Proof.
  intros Hp Hv H1 H2. unfold CreateFlagAndParse.
  rewrite bind_eq. unfold flag.Parsed. rewrite Hp, Hv.
  rewrite bind_eq, (CreateFlag_free v w H1 H2), bind_eq.
  destruct (flag_Parse (registered v w)) as [[u|c|msg] w2]; try reflexivity.
  rewrite bind_eq. unfold flag.load.
  destruct (nth (List.length (heap w)) (heap w2) false); reflexivity.
Qed.

(** X18: while the flags are not parsed, with a version string the
    parser accepts and the names [version] and [v] free: if parsing the
    command line returns and has set the flag, the helper prints the
    rendering of the version and a newline, and exits with status 0. *)
Theorem CreateFlagAndParse_prints s v w w2 :
  parsed w = false -> NewVersion s = Ok v ->
  flag.defined "version" w = false -> flag.defined "v" w = false ->
  flag_Parse (registered v w) = (Return tt, w2) ->
  nth (List.length (heap w)) (heap w2) false = true ->
  CreateFlagAndParse flag_Parse s w
  = (Exit 0, printed (Version_String v) w2) /\
  stdout (printed (Version_String v) w2)
  = (stdout w2 ++ [(s ++ String (ascii_of_nat 10) "")%string])%list.
Proof.
  intros Hp Hv H1 H2 HP Hset.
  rewrite (CreateFlagAndParse_valid s v w Hp Hv H1 H2), HP, Hset.
  split; [reflexivity|]. unfold printed. cbn [stdout].
  destruct (NewVersion_Ok_join s v Hv)
    as (p0 & p1 & p2 & _ & -> & (C0 & M0) & (C1 & M1) & (C2 & M2) & ->).
  rewrite Version_String_parts. cbn [Major Minor Patch].
  now rewrite !FormatUint_decimal.
Qed.

(** X19: in the same situation, if parsing the command line returns and
    has not set the flag, the helper returns no error, prints nothing and
    leaves the process as the parsing of the command line left it. *)
Theorem CreateFlagAndParse_returns s v w w2 :
  parsed w = false -> NewVersion s = Ok v ->
  flag.defined "version" w = false -> flag.defined "v" w = false ->
  flag_Parse (registered v w) = (Return tt, w2) ->
  nth (List.length (heap w)) (heap w2) false = false ->
  CreateFlagAndParse flag_Parse s w = (Return None, w2).
Proof.
  intros Hp Hv H1 H2 HP Hset.
  now rewrite (CreateFlagAndParse_valid s v w Hp Hv H1 H2), HP, Hset.
Qed.

(** X20: while the flags are not parsed, with a version string the
    parser accepts, a flag already named [version] or [v] makes the helper
    panic on the registration, before the command line is parsed: nothing
    is printed and the flags stay unparsed. *)
Theorem CreateFlagAndParse_redefined s v w :
  parsed w = false -> NewVersion s = Ok v ->
  flag.defined "version" w = true \/ flag.defined "v" w = true ->
  exists msg w',
    CreateFlagAndParse flag_Parse s w = (Panic msg, w') /\
    parsed w' = false /\ stdout w' = stdout w.
Proof.
  intros Hp Hv Hd. unfold CreateFlagAndParse.
  rewrite bind_eq. unfold flag.Parsed. rewrite Hp, Hv. rewrite bind_eq.
  destruct (CreateFlag_taken v w Hd) as (msg & w' & E & Hp' & Ho).
  rewrite E. exists msg, w'. split; [reflexivity|].
  split; [congruence | assumption].
Qed.

End FlagProperties.

Lemma CreateFlagAndParse_invalid_witness :
  let w := mkWorld false [] [] [] in
  parsed w = false /\
  NewVersion "1.x.3" = Fail (ErrInvalid MinorNumber "x") /\
  CreateFlagAndParse parseSetsAll "1.x.3" w
  = (Return (Some (ErrInvalid MinorNumber "x")), w).
Proof.
  intros w.
  assert (He : NewVersion "1.x.3" = Fail (ErrInvalid MinorNumber "x"))
    by (vm_compute; reflexivity).
  split; [reflexivity | split; [exact He|]].
  exact (CreateFlagAndParse_invalid parseSetsAll "1.x.3" _ w eq_refl He).
Defined.

Lemma CreateFlagAndParse_prints_witness :
  let w := mkWorld false [] [] [] in
  let v := mkVersion 1 2 3 in
  let w2 := mkWorld true (formal (registered v w)) [true] [] in
  NewVersion "1.2.3" = Ok v /\
  parseSetsAll (registered v w) = (Return tt, w2) /\
  CreateFlagAndParse parseSetsAll "1.2.3" w
  = (Exit 0, printed (Version_String v) w2) /\
  stdout (printed (Version_String v) w2)
  = (stdout w2 ++ [("1.2.3" ++ String (ascii_of_nat 10) "")%string])%list.
Proof.
  intros w v w2.
  assert (Hv : NewVersion "1.2.3" = Ok v) by (vm_compute; reflexivity).
  assert (HP : parseSetsAll (registered v w) = (Return tt, w2))
    by reflexivity.
  split; [exact Hv | split; [exact HP|]].
  exact (CreateFlagAndParse_prints parseSetsAll "1.2.3" v w w2
           eq_refl Hv eq_refl eq_refl HP eq_refl).
Defined.

Lemma CreateFlagAndParse_returns_witness :
  let w := mkWorld false [] [] [] in
  let v := mkVersion 1 2 3 in
  let w2 := mkWorld true (formal (registered v w)) [false] [] in
  NewVersion "1.2.3" = Ok v /\
  parseSetsNone (registered v w) = (Return tt, w2) /\
  CreateFlagAndParse parseSetsNone "1.2.3" w = (Return None, w2).
Proof.
  intros w v w2.
  assert (Hv : NewVersion "1.2.3" = Ok v) by (vm_compute; reflexivity).
  assert (HP : parseSetsNone (registered v w) = (Return tt, w2))
    by reflexivity.
  split; [exact Hv | split; [exact HP|]].
  exact (CreateFlagAndParse_returns parseSetsNone "1.2.3" v w w2
           eq_refl Hv eq_refl eq_refl HP eq_refl).
Defined.

Lemma CreateFlagAndParse_redefined_witness :
  let w := mkWorld false [("v", ("verbose output", 0))] [false] [] in
  parsed w = false /\
  NewVersion "1.2.3" = Ok (mkVersion 1 2 3) /\
  flag.defined "v" w = true /\
  exists msg w',
    CreateFlagAndParse parseSetsNone "1.2.3" w = (Panic msg, w') /\
    parsed w' = false /\ stdout w' = stdout w.
Proof.
  intros w.
  assert (Hv : NewVersion "1.2.3" = Ok (mkVersion 1 2 3))
    by (vm_compute; reflexivity).
  split; [reflexivity | split; [exact Hv | split; [reflexivity|]]].
  exact (CreateFlagAndParse_redefined parseSetsNone "1.2.3" _ w
           eq_refl Hv (or_intror eq_refl)).
Defined.
